(** * midi2tci, package ctrl: the controls of the MIDI surface

  A shallow embedding of [pkg/ctrl/ctrl.go]: the VFO wheel (a turn
  accumulator), the slider (a value coalescer with its executor goroutine),
  the feedback filters of the buttons and of the wheel, and the volume
  slider's translation from MIDI values to dB.

  Goroutines are modelled by explicit interleaving: every goroutine is a
  step function on the shared record of the instance, and a schedule is a
  list of actions.  Channels are records with a buffer, a capacity and a
  closed flag; a channel operation that cannot proceed is reported as
  blocking instead of being executed. *)

From Stdlib Require Import ZArith List Bool Lia.
From Stdlib.Strings Require Import Byte.
Import ListNotations.
Local Open Scope Z_scope.

(** ** Go's [int] on a 64-bit target *)

Module GoInt.

Definition min_int : Z := - 2 ^ 63.
Definition max_int : Z := 2 ^ 63 - 1.

Definition in_range (z : Z) : Prop := min_int <= z <= max_int.

(** Two's complement wrap-around of an integer result. *)
Definition wrap (z : Z) : Z := (z + 2 ^ 63) mod 2 ^ 64 - 2 ^ 63.

(** [a + b] on [int]. *)
Definition add (a b : Z) : Z := wrap (a + b).

End GoInt.

(** ** The part of IEEE 754 binary64 the package uses

  A finite [float64] is [mant * 2 ^ expo] with at most 53 significant bits.
  The package converts small integers to [float64], multiplies by a
  constant and converts back, so infinities, NaN and subnormal numbers never
  arise and are left out. *)

Module F64.

Record t := mk { mant : Z; expo : Z }.

Definition prec : Z := 53.

(** Number of significant bits of a natural number. *)
Definition bits (p : Z) : Z := if p =? 0 then 0 else Z.log2 p + 1.

(** [p / 2 ^ s] rounded to the nearest integer, ties to even
    ([0 <= p], [0 < s]). *)
Definition rne (p s : Z) : Z :=
  let q := Z.shiftr p s in
  let r := p - Z.shiftl q s in
  let h := Z.shiftl 1 (s - 1) in
  if r <? h then q
  else if h <? r then q + 1
  else if Z.even q then q else q + 1.

(** The binary64 number nearest to [m * 2 ^ e]. *)
Definition round (m e : Z) : t :=
  let p := Z.abs m in
  let s := bits p - prec in
  if s <=? 0 then mk m e else mk (Z.sgn m * rne p s) (e + s).

(** [float64(n)] *)
Definition of_int (n : Z) : t := round n 0.

(** [x * y] *)
Definition mul (x y : t) : t := round (mant x * mant y) (expo x + expo y).

(** A decimal constant [p / q] ([0 < p], [0 < q]) as a [float64]: the
    quotient is computed with two bits more than the precision, the lower
    one recording whether anything was left over, and then rounded. *)
Definition of_ratio (p q : Z) : t :=
  let k := Z.max 0 (55 + Z.log2 q - Z.log2 p) in
  let n := p * 2 ^ k in
  let sticky := if n mod q =? 0 then 0 else 1 in
  round (2 * (n / q) + sticky) (- k - 1).

(** The integer part, the fraction discarded (towards zero). *)
Definition trunc (x : t) : Z :=
  if 0 <=? expo x then mant x * 2 ^ expo x
  else Z.quot (mant x) (2 ^ (- expo x)).

(** [int(x)].  Go leaves the result open when the integer part does not fit;
    amd64 then yields the smallest [int]. *)
Definition to_int (x : t) : Z :=
  let z := trunc x in
  if (GoInt.min_int <=? z) && (z <=? GoInt.max_int) then z
  else GoInt.min_int.

End F64.

(** ** Shared declarations *)

Record MidiKey := { Channel : byte; Key : byte }.

(** [client.VFO] is declared in the imported package
  [github.com/ftl/tci/client]; the controls only store and compare it. *)
Class VFOType := {
  VFO : Type;
  VFO_eqb : VFO -> VFO -> bool;
  VFO_eqb_eq : forall a b : VFO, VFO_eqb a b = true <-> a = b
}.

(** What a call into the package does to its caller. *)
Inductive outcome (A : Type) : Type :=
| Returns (a : A)
| Blocks
| Panics.
Arguments Returns {A} a.
Arguments Blocks {A}.
Arguments Panics {A}.

(** ** Buffered channels of [int] *)

Module Chan.

Record t := mk { buf : list Z; cap : nat; closed : bool }.

(** [make(chan int, n)] *)
Definition make (n : nat) : t := mk [] n false.

Inductive send_result := Sent (c : t) | SendBlocks | SendPanics.

(** [c <- v] *)
Definition send (c : t) (v : Z) : send_result :=
  if closed c then SendPanics
  else if (length (buf c) <? cap c)%nat then Sent (mk (buf c ++ [v]) (cap c) false)
  else SendBlocks.

Inductive recv_result := Received (v : Z) (c : t) | RecvClosed | RecvBlocks.

(** [v, valid := <-c]: buffered values are delivered first, also after the
    channel was closed. *)
Definition recv (c : t) : recv_result :=
  match buf c with
  | v :: rest => Received v (mk rest (cap c) (closed c))
  | [] => if closed c then RecvClosed else RecvBlocks
  end.

(** [close(c)]; closing a closed channel panics ([None]). *)
Definition close (c : t) : option t :=
  if closed c then None else Some (mk (buf c) (cap c) true).

End Chan.


(** ** MuteButton *)

Module MuteButton.

Record t := mk { key : MidiKey; muted : bool }.

Definition NewMuteButton (key : MidiKey) : t := mk key false.

(** A call of [muter.SetMute], of [log.Print] or of [led.Set]. *)
Inductive effect :=
| CallSetMute (muted : bool)
| LogPrint
| LedSet (key : MidiKey) (on : bool).

(** [func (b *MuteButton) Pressed()]; [err] tells whether the muter's call
  returns an error. *)
Definition Pressed (b : t) (err : bool) : t * list effect :=
  (b, CallSetMute (negb (muted b)) :: (if err then [LogPrint] else [])).

(** [func (b *MuteButton) SetMute(muted bool)] *)
Definition SetMute (b : t) (muted' : bool) : t * list effect :=
  (mk (key b) muted', [LedSet (key b) (negb muted')]).

(** What reaches the button: a press of its key or feedback from the
  controller. *)
Inductive input := Press (err : bool) | Feedback (muted : bool).

Definition handle (b : t) (i : input) : t * list effect :=
  match i with
  | Press err => Pressed b err
  | Feedback m => SetMute b m
  end.

Fixpoint run (b : t) (ins : list input) : t * list effect :=
  match ins with
  | [] => (b, [])
  | i :: ins' =>
      let (b1, out1) := handle b i in
      let (b2, out2) := run b1 ins' in
      (b2, out1 ++ out2)
  end.

End MuteButton.

(** ** RXChannelEnableButton *)

Module RXChannelEnableButton.

Record t {V : VFOType} := mk {
  key : MidiKey;
  trx : Z;
  vfo : VFO;
  enabled : bool
}.

(** A call of [led.Set]. *)
Inductive led_effect := LedSet (key : MidiKey) (on : bool).

(** [func (b *RXChannelEnableButton) SetRXChannelEnable(trx, vfo, enabled)]:
  the button afterwards and the calls made on its LED. *)
Definition SetRXChannelEnable {V : VFOType} (b : t) (trx' : Z) (vfo' : VFO)
    (enabled' : bool) : t * list led_effect :=
  if negb (trx' =? trx b) || negb (VFO_eqb vfo' (vfo b)) then (b, [])
  else (mk _ (key b) (trx b) (vfo b) enabled', [LedSet (key b) enabled']).

(** A call of [rxChannelEnabler.SetRXChannelEnable] or of [log.Print]. *)
Inductive call_effect {V : VFOType} :=
| CallSetRXChannelEnable (trx : Z) (vfo : VFO) (enabled : bool)
| LogPrint.

(** [func (b *RXChannelEnableButton) Pressed()]; [err] tells whether the
  enabler's call returns an error. *)
Definition Pressed {V : VFOType} (b : t) (err : bool) : t * list call_effect :=
  (b, CallSetRXChannelEnable (trx b) (vfo b) (negb (enabled b))
        :: (if err then [LogPrint] else [])).

(** Feedback events [(trx, vfo, enabled)] delivered one after the other. *)
Fixpoint feed {V : VFOType} (b : t) (fs : list (Z * VFO * bool)) : t * list led_effect :=
  match fs with
  | [] => (b, [])
  | (trx', vfo', enabled') :: fs' =>
      let (b1, out1) := SetRXChannelEnable b trx' vfo' enabled' in
      let (b2, out2) := feed b1 fs' in
      (b2, out1 ++ out2)
  end.

End RXChannelEnableButton.

(** ** SplitEnableButton *)

Module SplitEnableButton.

Record t := mk { key : MidiKey; trx : Z; enabled : bool }.

Definition NewSplitEnableButton (key : MidiKey) (trx : Z) : t := mk key trx false.

(** A call of [led.Set]. *)
Inductive led_effect := LedSet (key : MidiKey) (on : bool).

(** A call of [splitEnabler.SetSplitEnable] or of [log.Print]. *)
Inductive call_effect := CallSetSplitEnable (trx : Z) (enabled : bool) | LogPrint.

(** [func (b *SplitEnableButton) Pressed()]; [err] tells whether the
  enabler's call returns an error. *)
Definition Pressed (b : t) (err : bool) : t * list call_effect :=
  (b, CallSetSplitEnable (trx b) (negb (enabled b)) :: (if err then [LogPrint] else [])).

(** [func (b *SplitEnableButton) SetSplitEnable(trx int, enabled bool)] *)
Definition SetSplitEnable (b : t) (trx' : Z) (enabled' : bool) : t * list led_effect :=
  if negb (trx' =? trx b) then (b, [])
  else (mk (key b) (trx b) enabled', [LedSet (key b) enabled']).

(** Feedback events [(trx, enabled)] delivered one after the other. *)
Fixpoint feed (b : t) (fs : list (Z * bool)) : t * list led_effect :=
  match fs with
  | [] => (b, [])
  | (trx', enabled') :: fs' =>
      let (b1, out1) := SetSplitEnable b trx' enabled' in
      let (b2, out2) := feed b1 fs' in
      (b2, out1 ++ out2)
  end.

End SplitEnableButton.

(** ** VFOWheel *)

Module VFOWheel.

(** The goroutine started by [NewVFOWheel]. *)
Module Loop.

Record t := mk { accumulatedTurns : Z; turning : bool; frequency : Z }.

Definition init : t := mk 0 false 0.

(** What an iteration of the [select] received.  A tick carries whether the
  controller's call, if this tick makes one, returns an error. *)
Inductive event := Turns (turns : Z) | Frequency (f : Z) | Tick (err : bool).

Inductive effect {V : VFOType} :=
| CallSetVFOFrequency (trx : Z) (vfo : VFO) (frequency : Z)
| LogPrintf.

(** The constant [1.8]. *)
Definition sensitivity : F64.t := F64.of_ratio 9 5.

(** [int(float64(accumulatedTurns)*1.8)] *)
Definition scaled (turns : Z) : Z :=
  F64.to_int (F64.mul (F64.of_int turns) sensitivity).

(** One iteration of the [for] loop on a received event. *)
Definition step {V : VFOType} (trx : Z) (vfo : VFO) (s : t) (e : event)
    : t * list effect :=
  match e with
  | Turns turns =>
      (mk (GoInt.add (accumulatedTurns s) turns) (0 <? frequency s) (frequency s), [])
  | Frequency f =>
      (if turning s then s else mk (accumulatedTurns s) (turning s) f, [])
  | Tick err =>
      if accumulatedTurns s =? 0 then
        (mk (accumulatedTurns s) false (frequency s), [])
      else if negb (accumulatedTurns s =? 0) && negb (frequency s =? 0) then
        let f := GoInt.add (frequency s) (scaled (accumulatedTurns s)) in
        (mk 0 (turning s) f,
         CallSetVFOFrequency trx vfo f :: (if err then [LogPrintf] else []))
      else (s, [])
  end.

(** A sequence of iterations, the effects in order. *)
Fixpoint run {V : VFOType} (trx : Z) (vfo : VFO) (s : t) (es : list event)
    : t * list effect :=
  match es with
  | [] => (s, [])
  | e :: es' =>
      let (s1, out1) := step trx vfo s e in
      let (s2, out2) := run trx vfo s1 es' in
      (s2, out1 ++ out2)
  end.

End Loop.

(** The wheel: the fields of the struct, the state of its goroutine and the
  calls the goroutine has made.  [closed] tells whether the channel of that
  name has been closed. *)
Record t {V : VFOType} := mk {
  key : MidiKey;
  trx : Z;
  vfo : VFO;
  frequency : Chan.t;
  turns : Chan.t;
  closed : bool;
  loop : Loop.t;
  trace : list Loop.effect
}.

Definition NewVFOWheel {V : VFOType} (key : MidiKey) (trx : Z) (vfo : VFO) : t :=
  mk _ key trx vfo (Chan.make 1000) (Chan.make 1000) false Loop.init [].

Definition with_turns {V : VFOType} (w : t) (c : Chan.t) : t :=
  mk _ (key w) (trx w) (vfo w) (frequency w) c (closed w) (loop w) (trace w).

Definition with_frequency {V : VFOType} (w : t) (c : Chan.t) : t :=
  mk _ (key w) (trx w) (vfo w) c (turns w) (closed w) (loop w) (trace w).

Definition with_closed {V : VFOType} (w : t) : t :=
  mk _ (key w) (trx w) (vfo w) (frequency w) (turns w) true (loop w) (trace w).

(** The goroutine handles a received event. *)
Definition deliver {V : VFOType} (w : t) (e : Loop.event) : t :=
  let (s, out) := Loop.step (trx w) (vfo w) (loop w) e in
  mk _ (key w) (trx w) (vfo w) (frequency w) (turns w) (closed w) s (trace w ++ out).

(** The case of the [select] an iteration takes. *)
Inductive select_case := CaseTurns | CaseFrequency | CaseTick (err : bool).

(** One iteration of the goroutine taking case [c]; [None] when that case
  is not ready or the goroutine has returned.  Leaving the loop runs the
  deferred [close(result.closed)]. *)
Definition iterate {V : VFOType} (w : t) (c : select_case) : option t :=
  if closed w then None
  else
    match c with
    | CaseTurns =>
        match Chan.recv (turns w) with
        | Chan.Received v ch => Some (deliver (with_turns w ch) (Loop.Turns v))
        | Chan.RecvClosed => Some (with_closed w)
        | Chan.RecvBlocks => None
        end
    | CaseFrequency =>
        match Chan.recv (frequency w) with
        | Chan.Received f ch => Some (deliver (with_frequency w ch) (Loop.Frequency f))
        | Chan.RecvClosed => Some (deliver w (Loop.Frequency 0))
        | Chan.RecvBlocks => None
        end
    | CaseTick err => Some (deliver w (Loop.Tick err))
    end.

(** [func (w *VFOWheel) Turned(turns int)] *)
Definition Turned {V : VFOType} (w : t) (n : Z) : outcome t :=
  match Chan.send (turns w) n with
  | Chan.Sent ch => Returns (with_turns w ch)
  | Chan.SendBlocks => Blocks
  | Chan.SendPanics => Panics
  end.

(** [func (w *VFOWheel) SetVFOFrequency(trx, vfo, frequency)] *)
Definition SetVFOFrequency {V : VFOType} (w : t) (trx' : Z) (vfo' : VFO) (f : Z)
    : outcome t :=
  if negb (trx' =? trx w) || negb (VFO_eqb vfo' (vfo w)) then Returns w
  else
    match Chan.send (frequency w) f with
    | Chan.Sent ch => Returns (with_frequency w ch)
    | Chan.SendBlocks => Blocks
    | Chan.SendPanics => Panics
    end.

(** Where a caller of [Close] stands: at the [select], blocked on
  [<-w.closed], returned, or stopped by a panic. *)
Inductive close_pc := AtSelect | AtWait | Returned | Panicked.

(** [func (w *VFOWheel) Close()], one step of its caller; [None] while the
  caller is blocked. *)
Definition Close {V : VFOType} (w : t) (pc : close_pc) : option (t * close_pc) :=
  match pc with
  | AtSelect =>
      if closed w then Some (w, Returned)
      else
        match Chan.close (turns w) with
        | Some ch => Some (with_turns w ch, AtWait)
        | None => Some (w, Panicked)
        end
  | AtWait => if closed w then Some (w, Returned) else None
  | Returned | Panicked => None
  end.

(** What the scheduler lets happen next: an iteration of the goroutine, a
  step of the caller of [Close], or a call by a producer. *)
Inductive action {V : VFOType} :=
| DoIterate (c : select_case)
| DoClose
| DoTurned (n : Z)
| DoSetVFOFrequency (trx : Z) (vfo : VFO) (f : Z).

Definition act {V : VFOType} (st : t * close_pc) (a : action) : option (t * close_pc) :=
  let (w, pc) := st in
  match a with
  | DoIterate c => option_map (fun w' => (w', pc)) (iterate w c)
  | DoClose => Close w pc
  | DoTurned n =>
      match Turned w n with Returns w' => Some (w', pc) | _ => None end
  | DoSetVFOFrequency trx' vfo' f =>
      match SetVFOFrequency w trx' vfo' f with Returns w' => Some (w', pc) | _ => None end
  end.

Fixpoint run {V : VFOType} (st : t * close_pc) (acts : list action)
    : option (t * close_pc) :=
  match acts with
  | [] => Some st
  | a :: acts' =>
      match act st a with
      | Some st' => run st' acts'
      | None => None
      end
  end.

End VFOWheel.

(** ** Slider *)

Module Slider.

(** The second goroutine of [start], which decides. *)
Module Loop.

Record t := mk { activeValue : Z; selectedValue : Z; pending : bool }.

Definition init : t := mk 0 0 false.

Inductive event := Active (value : Z) | Selected (value : Z) | Tick.

(** [select { case tx <- selectedValue: pending = false; default: pending = true }]
  where [ready] tells whether a receiver is waiting on the unbuffered [tx];
  the value sent, if any, is returned. *)
Definition try_send (ready : bool) (s : t) : t * option Z :=
  if ready then (mk (activeValue s) (selectedValue s) false, Some (selectedValue s))
  else (mk (activeValue s) (selectedValue s) true, None).

(** One iteration of the [for] loop on a received event. *)
Definition step (ready : bool) (s : t) (e : event) : t * option Z :=
  match e with
  | Active value =>
      (mk value (if pending s then selectedValue s else value) (pending s), None)
  | Selected value =>
      if activeValue s =? value then (mk (activeValue s) value (pending s), None)
      else try_send ready (mk (activeValue s) value (pending s))
  | Tick =>
      if activeValue s =? selectedValue s then
        (mk (activeValue s) (selectedValue s) false, None)
      else try_send ready s
  end.

End Loop.

(** The first goroutine of [start], which calls [set]: waiting in its
  [select], away from it (not yet there, or inside [s.set]), or returned. *)
Inductive executor := ExecWaiting | ExecBusy | ExecReturned.

(** The slider: the fields of the struct, the state of its two goroutines
  and the arguments of the calls of [set] so far, a call being recorded when
  its value is handed over on [tx]. *)
Record t := mk {
  translate : Z -> Z;
  activeValue : Chan.t;
  selectedValue : Chan.t;
  closed : bool;
  loop : Loop.t;
  exec : executor;
  calls : list Z
}.

Definition NewSlider (translate : Z -> Z) : t :=
  mk translate (Chan.make 1000) (Chan.make 1000) false Loop.init ExecBusy [].

Definition with_activeValue (s : t) (c : Chan.t) : t :=
  mk (translate s) c (selectedValue s) (closed s) (loop s) (exec s) (calls s).

Definition with_selectedValue (s : t) (c : Chan.t) : t :=
  mk (translate s) (activeValue s) c (closed s) (loop s) (exec s) (calls s).

Definition with_closed (s : t) : t :=
  mk (translate s) (activeValue s) (selectedValue s) true (loop s) (exec s) (calls s).

Definition with_exec (s : t) (x : executor) : t :=
  mk (translate s) (activeValue s) (selectedValue s) (closed s) (loop s) x (calls s).

Definition waiting (x : executor) : bool :=
  match x with ExecWaiting => true | _ => false end.

(** The deciding goroutine handles a received event; a value it hands over
  makes the executor busy with the call of [set]. *)
Definition handle (s : t) (e : Loop.event) : t :=
  match Loop.step (waiting (exec s)) (loop s) e with
  | (l, Some v) =>
      mk (translate s) (activeValue s) (selectedValue s) (closed s) l ExecBusy (calls s ++ [v])
  | (l, None) =>
      mk (translate s) (activeValue s) (selectedValue s) (closed s) l (exec s) (calls s)
  end.

(** The executor comes (back) to its [select]: [s.set] has returned, or the
  goroutine has just started. *)
Definition executor_arrives (s : t) : option t :=
  match exec s with
  | ExecBusy => Some (with_exec s ExecWaiting)
  | _ => None
  end.

(** The executor takes [case <-s.closed] and returns. *)
Definition executor_leaves (s : t) : option t :=
  match exec s with
  | ExecWaiting => if closed s then Some (with_exec s ExecReturned) else None
  | _ => None
  end.

Inductive select_case := CaseActive | CaseSelected | CaseTick.

(** One iteration of the deciding goroutine taking case [c]; [None] when
  that case is not ready or the goroutine has returned.  Leaving the loop
  runs the deferred [close(s.closed)]. *)
Definition iterate (s : t) (c : select_case) : option t :=
  if closed s then None
  else
    match c with
    | CaseActive =>
        match Chan.recv (activeValue s) with
        | Chan.Received v ch => Some (handle (with_activeValue s ch) (Loop.Active v))
        | Chan.RecvClosed => Some (with_closed s)
        | Chan.RecvBlocks => None
        end
    | CaseSelected =>
        match Chan.recv (selectedValue s) with
        | Chan.Received v ch => Some (handle (with_selectedValue s ch) (Loop.Selected v))
        | Chan.RecvClosed => Some (with_closed s)
        | Chan.RecvBlocks => None
        end
    | CaseTick => Some (handle s Loop.Tick)
    end.

(** [func (s *Slider) Changed(value int)] *)
Definition Changed (s : t) (value : Z) : outcome t :=
  match Chan.send (selectedValue s) (translate s value) with
  | Chan.Sent ch => Returns (with_selectedValue s ch)
  | Chan.SendBlocks => Blocks
  | Chan.SendPanics => Panics
  end.

(** [func (s *VolumeSlider) SetVolume(volume int)] *)
Definition SetVolume (s : t) (volume : Z) : outcome t :=
  match Chan.send (activeValue s) volume with
  | Chan.Sent ch => Returns (with_activeValue s ch)
  | Chan.SendBlocks => Blocks
  | Chan.SendPanics => Panics
  end.

(** Where a caller of [Close] stands: at the [select], before
  [close(s.selectedValue)], blocked on [<-s.closed], returned, or stopped by
  a panic. *)
Inductive close_pc := AtSelect | AtCloseSelected | AtWait | Returned | Panicked.

(** [func (s *Slider) Close()], one step of its caller; [None] while the
  caller is blocked. *)
Definition Close (s : t) (pc : close_pc) : option (t * close_pc) :=
  match pc with
  | AtSelect =>
      if closed s then Some (s, Returned)
      else
        match Chan.close (activeValue s) with
        | Some ch => Some (with_activeValue s ch, AtCloseSelected)
        | None => Some (s, Panicked)
        end
  | AtCloseSelected =>
      match Chan.close (selectedValue s) with
      | Some ch => Some (with_selectedValue s ch, AtWait)
      | None => Some (s, Panicked)
      end
  | AtWait => if closed s then Some (s, Returned) else None
  | Returned | Panicked => None
  end.

Inductive action :=
| DoIterate (c : select_case)
| DoExecutorArrives
| DoExecutorLeaves
| DoClose
| DoChanged (value : Z)
| DoSetVolume (volume : Z).

Definition act (st : t * close_pc) (a : action) : option (t * close_pc) :=
  let (s, pc) := st in
  match a with
  | DoIterate c => option_map (fun s' => (s', pc)) (iterate s c)
  | DoExecutorArrives => option_map (fun s' => (s', pc)) (executor_arrives s)
  | DoExecutorLeaves => option_map (fun s' => (s', pc)) (executor_leaves s)
  | DoClose => Close s pc
  | DoChanged v =>
      match Changed s v with Returns s' => Some (s', pc) | _ => None end
  | DoSetVolume v =>
      match SetVolume s v with Returns s' => Some (s', pc) | _ => None end
  end.

Fixpoint run (st : t * close_pc) (acts : list action) : option (t * close_pc) :=
  match acts with
  | [] => Some st
  | a :: acts' =>
      match act st a with
      | Some st' => run st' acts'
      | None => None
      end
  end.

(** What happens to the two goroutines within a window of time: the
  deciding goroutine handles an event, or the executor comes back to its
  [select]. *)
Inductive happening := Handled (e : Loop.event) | ExecutorArrived.

Definition happen (s : t) (h : happening) : t :=
  match h with
  | Handled e => handle s e
  | ExecutorArrived => match executor_arrives s with Some s' => s' | None => s end
  end.

Definition after (s : t) (hs : list happening) : t := fold_left happen hs s.

End Slider.

(** ** VolumeSlider *)

Module VolumeSlider.

(** [const tick = float64(60.0 / 127.0)] *)
Definition tick : F64.t := F64.of_ratio 60 127.

(** [func(v int) int { return -60 + int(float64(v)*tick) }] *)
Definition translate (v : Z) : Z :=
  GoInt.add (-60) (F64.to_int (F64.mul (F64.of_int v) tick)).

Definition NewVolumeSlider : Slider.t := Slider.NewSlider translate.

End VolumeSlider.

(** ** Notions used to state the properties *)

(** An integer [VFO] type, to evaluate the model on concrete inputs. *)
#[export] Instance int_VFO : VFOType :=
  {| VFO := Z; VFO_eqb := Z.eqb; VFO_eqb_eq := Z.eqb_eq |}.

(** [round(turns * 1.8)] as the specification words it: the integer nearest
  to [9 * turns / 5], which is never half way between two integers. *)
Definition rounded_scaled (turns : Z) : Z := (18 * turns + 5) / 10.

(** The turn deltas of a sequence of events of the wheel, in order. *)
Definition turn_deltas (es : list VFOWheel.Loop.event) : list Z :=
  flat_map (fun e => match e with VFOWheel.Loop.Turns n => [n] | _ => [] end) es.

(** Whether an event of the wheel is a baseline report. *)
Definition is_baseline (e : VFOWheel.Loop.event) : bool :=
  match e with VFOWheel.Loop.Frequency _ => true | _ => false end.

(** The targets handled in a window of the slider, in order. *)
Definition targets (hs : list Slider.happening) : list Z :=
  flat_map (fun h => match h with
                     | Slider.Handled (Slider.Loop.Selected v) => [v]
                     | _ => []
                     end) hs.

Definition is_target (h : Slider.happening) : bool :=
  match h with Slider.Handled (Slider.Loop.Selected _) => true | _ => false end.

(** A tick window of the slider holds target reports and returns of the
  executor to its [select], but no tick and no active report. *)
Definition in_window (h : Slider.happening) : bool :=
  match h with
  | Slider.Handled (Slider.Loop.Selected _) | Slider.ExecutorArrived => true
  | _ => false
  end.

(** A wheel whose queue of turns holds [n] unprocessed events. *)
Definition wheel_with_backlog (n : nat) : VFOWheel.t :=
  Nat.iter n
    (fun w => match VFOWheel.Turned w 1 with Returns w' => w' | _ => w end)
    (VFOWheel.NewVFOWheel (Build_MidiKey x00 x01) 0 0).

(** A slider whose queue of targets holds [n] unprocessed events. *)
Definition slider_with_backlog (n : nat) : Slider.t :=
  Nat.iter n
    (fun s => match Slider.Changed s 64 with Returns s' => s' | _ => s end)
    VolumeSlider.NewVolumeSlider.

(** ** Further notions *)

(** The values of the feedback events meant for a transceiver and VFO. *)
Definition rx_matching {V : VFOType} (trx : Z) (vfo : VFO) (fs : list (Z * VFO * bool))
    : list bool :=
  flat_map (fun f => match f with
                     | (trx', vfo', enabled') =>
                         if (trx' =? trx) && VFO_eqb vfo' vfo then [enabled'] else []
                     end) fs.

(** The values of the feedback events meant for a transceiver. *)
Definition split_matching (trx : Z) (fs : list (Z * bool)) : list bool :=
  flat_map (fun f => match f with
                     | (trx', enabled') => if trx' =? trx then [enabled'] else []
                     end) fs.

(** The feedback values among the inputs of a mute button. *)
Definition mute_feedbacks (ins : list MuteButton.input) : list bool :=
  flat_map (fun i => match i with MuteButton.Feedback m => [m] | _ => [] end) ins.

(** The LED calls among the effects of a mute button. *)
Definition mute_leds (out : list MuteButton.effect) : list MuteButton.effect :=
  filter (fun e => match e with MuteButton.LedSet _ _ => true | _ => false end) out.

(** The number of calls of the controller among the effects of the wheel. *)
Definition count_calls {V : VFOType} (out : list VFOWheel.Loop.effect) : nat :=
  length (filter (fun e => match e with
                           | VFOWheel.Loop.CallSetVFOFrequency _ _ _ => true
                           | _ => false
                           end) out).

(** The number of ticks among the events of the wheel. *)
Definition count_ticks (es : list VFOWheel.Loop.event) : nat :=
  length (filter (fun e => match e with VFOWheel.Loop.Tick _ => true | _ => false end) es).

(** Whether a happening of the slider is a tick or a return of the
  executor to its [select]. *)
Definition is_idle_happening (h : Slider.happening) : bool :=
  match h with
  | Slider.Handled Slider.Loop.Tick | Slider.ExecutorArrived => true
  | _ => false
  end.

(** [k] rounds of the executor coming back to its [select] followed by a
  tick. *)
Definition retry_rounds (k : nat) : list Slider.happening :=
  concat (repeat [Slider.ExecutorArrived; Slider.Handled Slider.Loop.Tick] k).

(** Where the queues of a slider stand while [Close] is under way. *)
Definition slider_closing (s : Slider.t) (pc : Slider.close_pc) : Prop :=
  (Chan.closed (Slider.activeValue s) = true /\ Chan.closed (Slider.selectedValue s) = true) \/
  (pc = Slider.AtCloseSelected /\ Chan.closed (Slider.activeValue s) = true) \/
  (pc = Slider.AtSelect /\ Slider.closed s = false /\
   Chan.closed (Slider.activeValue s) = false /\ Chan.closed (Slider.selectedValue s) = false).

(** * Properties *)

(** ** Integers and floating point *)

(** A sum that fits is the plain sum. *)
Lemma add_in_range (a b : Z) : GoInt.in_range (a + b) -> GoInt.add a b = a + b.
Proof.
  unfold GoInt.in_range, GoInt.min_int, GoInt.max_int, GoInt.add, GoInt.wrap; intros Hz.
  rewrite Z.mod_small by lia. lia.
Qed.

Lemma bits_le (p b : Z) : 0 <= p < 2 ^ b -> 0 <= b -> F64.bits p <= b.
Proof.
  intros [Hp Hlt] Hb. unfold F64.bits.
  destruct (Z.eqb_spec p 0) as [|Hne]; [lia|].
  assert (Z.log2 p < b) by (apply Z.log2_lt_pow2; lia). lia.
Qed.

(** Rounding to nearest is off by at most half a unit of the last place. *)
Lemma rne_bounds (p s : Z) :
  0 <= p -> 0 < s ->
  0 <= F64.rne p s /\ 2 * Z.abs (2 ^ s * F64.rne p s - p) <= 2 ^ s.
Proof.
  intros Hp Hs. unfold F64.rne.
  rewrite Z.shiftr_div_pow2, !Z.shiftl_mul_pow2 by lia.
  assert (Hpow : 2 ^ s = 2 * 2 ^ (s - 1)).
  { replace s with (Z.succ (s - 1)) at 1 by lia. apply Z.pow_succ_r; lia. }
  assert (Hh : 0 < 2 ^ (s - 1)) by (apply Z.pow_pos_nonneg; lia).
  set (h := 2 ^ (s - 1)) in *.
  assert (Hdm := Z.div_mod p (2 ^ s) ltac:(lia)).
  assert (Hm := Z.mod_pos_bound p (2 ^ s) ltac:(lia)).
  assert (Hq : 0 <= p / 2 ^ s) by (apply Z.div_pos; lia).
  rewrite Hpow in *.
  set (q := p / (2 * h)) in *. set (r := p mod (2 * h)) in *.
  assert (Hr : p - q * (2 * h) = r) by lia. rewrite Hr, Z.mul_1_l.
  destruct (Z.ltb_spec r h); [split; [lia|]; nia|].
  destruct (Z.ltb_spec h r); [split; [lia|]; nia|].
  destruct (Z.even q); (split; [lia|]; nia).
Qed.

(** [round] yields a mantissa [q] and a shift [s] with [q * 2 ^ s] within
  half a unit of [|m|], exact when nothing is shifted out. *)
Lemma round_spec (m e b : Z) :
  Z.abs m < 2 ^ (F64.prec + b) -> 0 <= b ->
  exists q s, F64.round m e = F64.mk (Z.sgn m * q) (e + s) /\
              0 <= s <= b /\ 0 <= q /\ 2 * Z.abs (2 ^ s * q - Z.abs m) <= 2 ^ s.
Proof.
  intros Hm Hb. unfold F64.round.
  assert (Hbits : F64.bits (Z.abs m) <= F64.prec + b)
    by (apply bits_le; unfold F64.prec in *; lia).
  destruct (Z.leb_spec (F64.bits (Z.abs m) - F64.prec) 0) as [Hs|Hs].
  - exists (Z.abs m), 0. rewrite Z.add_0_r, (Z.mul_comm (Z.sgn m)), Z.abs_sgn.
    rewrite Z.pow_0_r. repeat split; lia.
  - set (s := F64.bits (Z.abs m) - F64.prec) in *.
    destruct (rne_bounds (Z.abs m) s ltac:(lia) Hs) as [Hq Herr].
    exists (F64.rne (Z.abs m) s), s. repeat split; lia.
Qed.

Lemma sensitivity_eq :
  VFOWheel.Loop.sensitivity = F64.mk 8106479329266893 (-52).
Proof. reflexivity. Qed.

Lemma of_int_exact (n : Z) : Z.abs n < 2 ^ 53 -> F64.of_int n = F64.mk n 0.
Proof.
  intros Hn. unfold F64.of_int, F64.round.
  assert (F64.bits (Z.abs n) <= 53) by (apply bits_le; lia).
  unfold F64.prec. destruct (Z.leb_spec (F64.bits (Z.abs n) - 53) 0); [reflexivity|lia].
Qed.

(** On turns of a realistic size the float computation is the exact
  product [9 * turns / 5] with its fraction cut off. *)
Lemma scaled_quot (n : Z) :
  Z.abs n < 2 ^ 50 -> VFOWheel.Loop.scaled n = Z.quot (9 * n) 5.
Proof.
  intros Hn. unfold VFOWheel.Loop.scaled.
  rewrite sensitivity_eq, of_int_exact by lia.
  unfold F64.mul; cbn [F64.mant F64.expo].
  set (M := 8106479329266893).
  destruct (round_spec (n * M) (0 + -52) 50) as (q & s & Hr & Hs & Hq & Herr).
  { rewrite Z.abs_mul. unfold F64.prec, M. change (Z.abs 8106479329266893) with 8106479329266893.
    change (2 ^ (53 + 50)) with (2 ^ 50 * 2 ^ 53). nia. }
  { lia. }
  rewrite Hr. clear Hr.
  assert (Hres : F64.trunc (F64.mk (Z.sgn (n * M) * q) (0 + -52 + s)) = Z.quot (9 * n) 5).
  { unfold F64.trunc; cbn [F64.mant F64.expo].
    destruct (Z.leb_spec 0 (0 + -52 + s)); [lia|].
    replace (- (0 + -52 + s)) with (52 - s) by lia.
    set (a := Z.abs n) in *.
    assert (HS : 0 < 2 ^ s) by (apply Z.pow_pos_nonneg; lia).
    assert (HT : 0 < 2 ^ (52 - s)) by (apply Z.pow_pos_nonneg; lia).
    assert (HST : 2 ^ s * 2 ^ (52 - s) = 2 ^ 52)
      by (rewrite <- Z.pow_add_r by lia; f_equal; lia).
    assert (HSle : 2 ^ s <= 2 ^ 50) by (apply Z.pow_le_mono_r; lia).
    set (S := 2 ^ s) in *. set (T := 2 ^ (52 - s)) in *.
    assert (Hp : Z.abs (n * M) = a * M) by (rewrite Z.abs_mul; reflexivity).
    rewrite Hp in Herr.
    assert (H5 : 5 * (a * M) = a * (9 * 2 ^ 52 + 1)) by (unfold M; lia).
    assert (Hdm := Z.div_mod (9 * a) 5 ltac:(lia)).
    assert (Hmb := Z.mod_pos_bound (9 * a) 5 ltac:(lia)).
    set (f := 9 * a / 5) in *.
    assert (Ha : 0 <= a) by (unfold a; lia).
    assert (Hf : 0 <= f) by (unfold f; apply Z.div_pos; lia).
    assert (Hqf : q / T = f).
    { symmetry. apply Z.div_unique with (r := q - T * f); [|lia].
      left. split.
      - destruct (Z.le_gt_cases (T * f) q) as [|Hlt]; [lia|exfalso].
        assert (S * q <= S * (T * f - 1)) by (apply Z.mul_le_mono_nonneg_l; lia).
        assert (S * (T * f - 1) = 2 ^ 52 * f - S) by (rewrite <- HST; ring).
        lia.
      - destruct (Z.le_gt_cases (T * f + T) q) as [Hge|]; [exfalso|lia].
        assert (S * (T * f + T) <= S * q) by (apply Z.mul_le_mono_nonneg_l; lia).
        assert (S * (T * f + T) = 2 ^ 52 * f + 2 ^ 52) by (rewrite <- HST; ring).
        lia. }
    assert (HsgnM : Z.sgn (n * M) = Z.sgn n) by (rewrite Z.sgn_mul; unfold M; cbn; lia).
    rewrite HsgnM.
    destruct (Z.sgn_spec n) as [[Hpos Hsg]|[[Hz Hsg]|[Hneg Hsg]]]; rewrite Hsg.
    - rewrite Z.mul_1_l, Z.quot_div_nonneg by lia.
      rewrite Z.quot_div_nonneg by lia. rewrite Hqf. unfold f, a.
      now rewrite Z.abs_eq by lia.
    - subst n. reflexivity.
    - replace (-1 * q) with (- q) by lia.
      rewrite Z.quot_opp_l by lia. rewrite Z.quot_div_nonneg by lia.
      replace (9 * n) with (- (9 * a)) by (unfold a; lia).
      rewrite Z.quot_opp_l by lia. rewrite Z.quot_div_nonneg by lia.
      now rewrite Hqf. }
  unfold F64.to_int. rewrite Hres.
  assert (Hb : Z.abs (Z.quot (9 * n) 5) <= Z.abs (9 * n)).
  { destruct (Z.le_ge_cases 0 (9 * n)).
    - rewrite !Z.abs_eq; [|lia|apply Z.quot_pos; lia].
      rewrite Z.quot_div_nonneg by lia. apply Z.div_le_upper_bound; lia.
    - rewrite (Z.abs_neq (9 * n)) by lia.
      replace (9 * n) with (- - (9 * n)) at 1 by lia.
      rewrite Z.quot_opp_l by lia. rewrite Z.abs_opp, Z.abs_eq by (apply Z.quot_pos; lia).
      rewrite Z.quot_div_nonneg by lia. apply Z.div_le_upper_bound; lia. }
  unfold GoInt.min_int, GoInt.max_int.
  destruct (Z.leb_spec (- 2 ^ 63) (Z.quot (9 * n) 5));
    destruct (Z.leb_spec (Z.quot (9 * n) 5) (2 ^ 63 - 1)); cbn; lia.
Qed.

(** ** The turn accumulator *)

Import VFOWheel.

(** C4, as the code has it: a turn delta is added to [accumulatedTurns] (Go's
  [int] addition), [turning] becomes true exactly when [frequency] is
  positive, [frequency] is kept and nothing is sent to the controller. *)
Theorem turn_accumulates_and_marks_turning {V : VFOType} :
  forall (trx : Z) (vfo : VFO) (s : Loop.t) (n : Z),
    let r := Loop.step trx vfo s (Loop.Turns n) in
    Loop.accumulatedTurns (fst r) = GoInt.add (Loop.accumulatedTurns s) n /\
    (Loop.turning (fst r) = true <-> 0 < Loop.frequency s) /\
    Loop.frequency (fst r) = Loop.frequency s /\
    snd r = [].
Proof.
  intros trx vfo s n r. subst r. cbn.
  repeat split; try reflexivity; apply Z.ltb_lt.
Qed.

Lemma turn_accumulates_and_marks_turning_witness :
  let r := Loop.step (V := int_VFO) 1 0 (Loop.mk 2 false 14250000) (Loop.Turns 3) in
  Loop.accumulatedTurns (fst r) = 5 /\ Loop.turning (fst r) = true.
Proof.
  intros r.
  destruct (turn_accumulates_and_marks_turning (V := int_VFO) 1 0
              (Loop.mk 2 false 14250000) 3) as (Hacc & Hturning & _).
  split; [exact Hacc | apply Hturning; reflexivity].
Defined.

(** C4 fails as stated: after the dispatch of a downward burst took the
  frequency below zero, the frequency is nonzero and a turn leaves [turning]
  false. *)
Lemma turn_on_negative_frequency_not_turning :
  let s := fst (Loop.run (V := int_VFO) 1 0 Loop.init
                  [Loop.Frequency 2; Loop.Turns (-10); Loop.Tick false]) in
  Loop.frequency s <> 0 /\
  Loop.turning (fst (Loop.step (V := int_VFO) 1 0 s (Loop.Turns 1))) = false.
Proof. vm_compute. split; [discriminate|reflexivity]. Qed.

(** C5: a baseline report overwrites [frequency] when [turning] is false and
  leaves the whole state unchanged when it is true; in both cases nothing
  is sent to the controller. *)
Theorem baseline_report_respects_turning {V : VFOType} :
  forall (trx : Z) (vfo : VFO) (s : Loop.t) (f : Z),
    let r := Loop.step trx vfo s (Loop.Frequency f) in
    snd r = [] /\
    (Loop.turning s = false ->
       fst r = Loop.mk (Loop.accumulatedTurns s) false f) /\
    (Loop.turning s = true -> fst r = s).
Proof.
  intros trx vfo s f r. subst r. cbn.
  split; [reflexivity|]. split; intros Ht; rewrite Ht; reflexivity.
Qed.

Lemma baseline_report_respects_turning_witness :
  Loop.step (V := int_VFO) 1 0 (Loop.mk 4 false 7000000) (Loop.Frequency 7100000)
    = (Loop.mk 4 false 7100000, []) /\
  Loop.step (V := int_VFO) 1 0 (Loop.mk 4 true 7000000) (Loop.Frequency 7100000)
    = (Loop.mk 4 true 7000000, []).
Proof.
  split.
  - destruct (baseline_report_respects_turning (V := int_VFO) 1 0 (Loop.mk 4 false 7000000) 7100000)
      as (Hout & Hidle & _).
    rewrite (surjective_pairing (Loop.step _ _ _ _)), Hout, (Hidle eq_refl).
    reflexivity.
  - destruct (baseline_report_respects_turning (V := int_VFO) 1 0 (Loop.mk 4 true 7000000) 7100000)
      as (Hout & _ & Hturning).
    rewrite (surjective_pairing (Loop.step _ _ _ _)), Hout, (Hturning eq_refl).
    reflexivity.
Defined.

(** C2 fails as stated: one pending turn on a baseline of 7000000 dispatches
  7000001, the fraction of 1.8 cut off, where rounding gives 7000002. *)
Lemma tick_dispatch_is_not_rounded :
  let s := Loop.mk 1 true 7000000 in
  snd (Loop.step (V := int_VFO) 1 0 s (Loop.Tick false))
    = [Loop.CallSetVFOFrequency 1 0 7000001] /\
  snd (Loop.step (V := int_VFO) 1 0 s (Loop.Tick false))
    <> [Loop.CallSetVFOFrequency 1 0
          (GoInt.add (Loop.frequency s) (rounded_scaled (Loop.accumulatedTurns s)))].
Proof. vm_compute. split; [reflexivity|discriminate]. Qed.

(** C2, as the code has it: on a tick with pending turns and a nonzero
  baseline the dispatched value is the baseline plus [turns * 1.8] with the
  fraction cut off (towards zero), the baseline becomes that value and the
  pending turns are reset, whether or not the controller's call fails (a
  failure only adds a log line); the burst +3, +2, -1 dispatches the baseline
  plus 7, which is also the rounded value of 4 * 1.8.  Sums are Go's [int]
  sums; the pending turns are below 2^50 in size. *)
Theorem tick_dispatches_truncated_product {V : VFOType} :
  forall (trx : Z) (vfo : VFO) (s : Loop.t) (err : bool),
    Loop.frequency s <> 0 ->
    (Loop.accumulatedTurns s <> 0 ->
     Z.abs (Loop.accumulatedTurns s) < 2 ^ 50 ->
     let f := GoInt.add (Loop.frequency s) (Z.quot (9 * Loop.accumulatedTurns s) 5) in
     Loop.step trx vfo s (Loop.Tick err)
       = (Loop.mk 0 (Loop.turning s) f,
          Loop.CallSetVFOFrequency trx vfo f :: (if err then [Loop.LogPrintf] else []))) /\
    (Loop.accumulatedTurns s = 0 ->
     let f := GoInt.add (Loop.frequency s) 7 in
     Loop.run trx vfo s [Loop.Turns 3; Loop.Turns 2; Loop.Turns (-1); Loop.Tick err]
       = (Loop.mk 0 (0 <? Loop.frequency s) f,
          Loop.CallSetVFOFrequency trx vfo f :: (if err then [Loop.LogPrintf] else [])) /\
     rounded_scaled 4 = 7).
Proof.
  intros trx vfo s err Hf. split.
  - intros Hacc Hsmall f. unfold Loop.step.
    destruct (Z.eqb_spec (Loop.accumulatedTurns s) 0) as [|_]; [contradiction|].
    destruct (Z.eqb_spec (Loop.frequency s) 0) as [|_]; [contradiction|].
    cbn [negb andb]. now rewrite scaled_quot.
  - intros Hacc f. split; [|reflexivity].
    destruct s as [acc t fr]; cbn [Loop.accumulatedTurns Loop.frequency Loop.turning] in *.
    subst acc. unfold Loop.run, Loop.step.
    cbn [Loop.accumulatedTurns Loop.frequency Loop.turning].
    change (GoInt.add (GoInt.add (GoInt.add 0 3) 2) (-1)) with 4.
    change (4 =? 0) with false. cbn [negb andb].
    destruct (Z.eqb_spec fr 0) as [|_]; [contradiction|].
    cbn [negb app]. rewrite scaled_quot, app_nil_r by (cbn; lia). reflexivity.
Qed.

Lemma tick_dispatches_truncated_product_witness :
  Loop.step (V := int_VFO) 1 0 (Loop.mk (-3) true 14250000) (Loop.Tick true)
    = (Loop.mk 0 true 14249995,
       [Loop.CallSetVFOFrequency 1 0 14249995; Loop.LogPrintf]) /\
  Loop.run (V := int_VFO) 1 0 (Loop.mk 0 false 14250000)
      [Loop.Turns 3; Loop.Turns 2; Loop.Turns (-1); Loop.Tick false]
    = (Loop.mk 0 true 14250007, [Loop.CallSetVFOFrequency 1 0 14250007]).
Proof.
  split.
  - apply (proj1 (tick_dispatches_truncated_product (V := int_VFO) 1 0
                    (Loop.mk (-3) true 14250000) true ltac:(discriminate)));
      [discriminate | reflexivity].
  - apply (proj1 (proj2 (tick_dispatches_truncated_product (V := int_VFO) 1 0
                           (Loop.mk 0 false 14250000) false ltac:(discriminate))
                    eq_refl)).
Defined.

(** While no baseline is known the loop only accumulates. *)
Lemma run_without_baseline {V : VFOType} (trx : Z) (vfo : VFO) :
  forall (es : list Loop.event) (s : Loop.t),
    forallb (fun e => negb (is_baseline e)) es = true ->
    Loop.frequency s = 0 ->
    Loop.turning s = false ->
    snd (Loop.run trx vfo s es) = [] /\
    Loop.frequency (fst (Loop.run trx vfo s es)) = 0 /\
    Loop.turning (fst (Loop.run trx vfo s es)) = false /\
    Loop.accumulatedTurns (fst (Loop.run trx vfo s es))
      = fold_left GoInt.add (turn_deltas es) (Loop.accumulatedTurns s).
Proof.
  induction es as [|e es IH]; intros s Hes Hf Ht.
  - cbn. repeat split; assumption.
  - cbn [forallb] in Hes. apply andb_prop in Hes as [He Hes].
    cbn [Loop.run].
    destruct (Loop.step trx vfo s e) as [s1 out1] eqn:Hstep.
    assert (H1 : out1 = [] /\ Loop.frequency s1 = 0 /\ Loop.turning s1 = false /\
                 Loop.accumulatedTurns s1
                   = fold_left GoInt.add (turn_deltas [e]) (Loop.accumulatedTurns s)).
    { destruct e as [n|f|err]; cbn in He; [| discriminate |].
      - cbn in Hstep. injection Hstep as <- <-. cbn. rewrite Hf. repeat split.
      - unfold Loop.step in Hstep. rewrite Hf in Hstep.
        destruct (Z.eqb_spec (Loop.accumulatedTurns s) 0) as [Hz|Hnz];
          cbn in Hstep; injection Hstep as <- <-; cbn; repeat split; assumption. }
    destruct H1 as (-> & Hf1 & Ht1 & Hacc1).
    destruct (Loop.run trx vfo s1 es) as [s2 out2] eqn:Hrun.
    specialize (IH s1 Hes Hf1 Ht1). rewrite Hrun in IH. cbn [fst snd] in *.
    destruct IH as (Hout & Hf2 & Ht2 & Hacc2).
    repeat split; try assumption.
    rewrite Hacc2, Hacc1.
    unfold turn_deltas. change (e :: es) with ([e] ++ es).
    now rewrite flat_map_app, fold_left_app.
Qed.

(** C6: from the start of the goroutine, a sequence of turn deltas and ticks
  without a baseline report makes no call of [SetVFOFrequency] (nor any other
  effect); the frequency stays unknown, [turning] stays false, so that a later
  baseline report is accepted, and [accumulatedTurns] holds the sum of all
  deltas (Go's [int] sum). *)
Theorem no_dispatch_before_baseline {V : VFOType} :
  forall (trx : Z) (vfo : VFO) (es : list Loop.event),
    forallb (fun e => negb (is_baseline e)) es = true ->
    snd (Loop.run trx vfo Loop.init es) = [] /\
    Loop.frequency (fst (Loop.run trx vfo Loop.init es)) = 0 /\
    Loop.turning (fst (Loop.run trx vfo Loop.init es)) = false /\
    Loop.accumulatedTurns (fst (Loop.run trx vfo Loop.init es))
      = fold_left GoInt.add (turn_deltas es) 0.
Proof.
  intros trx vfo es Hes.
  exact (run_without_baseline trx vfo es Loop.init Hes eq_refl eq_refl).
Qed.

Lemma no_dispatch_before_baseline_witness :
  let es := [Loop.Turns 3; Loop.Tick false; Loop.Turns 2; Loop.Turns (-1);
             Loop.Tick true] in
  snd (Loop.run (V := int_VFO) 1 0 Loop.init es) = [] /\
  Loop.frequency (fst (Loop.run (V := int_VFO) 1 0 Loop.init es)) = 0 /\
  Loop.turning (fst (Loop.run (V := int_VFO) 1 0 Loop.init es)) = false /\
  Loop.accumulatedTurns (fst (Loop.run (V := int_VFO) 1 0 Loop.init es))
    = fold_left GoInt.add (turn_deltas es) 0.
Proof.
  intros es. apply (no_dispatch_before_baseline (V := int_VFO) 1 0 es). reflexivity.
Defined.

(** ** Feedback filters *)

Lemma mismatch_guard {V : VFOType} (trx trx' : Z) (vfo vfo' : VFO) :
  trx' <> trx \/ vfo' <> vfo ->
  negb (trx' =? trx) || negb (VFO_eqb vfo' vfo) = true.
Proof.
  intros [Ht|Hv].
  - apply Z.eqb_neq in Ht. now rewrite Ht.
  - destruct (VFO_eqb vfo' vfo) eqn:E.
    + apply VFO_eqb_eq in E. contradiction.
    + apply orb_true_r.
Qed.

(** C8: feedback for another transceiver or another VFO returns at once:
  the wheel keeps every field, its queues included, and the button keeps its
  state and makes no call on its LED. *)
Theorem mismatched_feedback_is_discarded {V : VFOType} :
  forall (trx' : Z) (vfo' : VFO),
    (forall (w : VFOWheel.t) (f : Z),
       trx' <> VFOWheel.trx w \/ vfo' <> VFOWheel.vfo w ->
       VFOWheel.SetVFOFrequency w trx' vfo' f = Returns w) /\
    (forall (b : RXChannelEnableButton.t) (enabled : bool),
       trx' <> RXChannelEnableButton.trx b \/ vfo' <> RXChannelEnableButton.vfo b ->
       RXChannelEnableButton.SetRXChannelEnable b trx' vfo' enabled = (b, [])).
Proof.
  intros trx' vfo'. split.
  - intros w f Hne. unfold VFOWheel.SetVFOFrequency.
    now rewrite mismatch_guard.
  - intros b enabled Hne. unfold RXChannelEnableButton.SetRXChannelEnable.
    now rewrite mismatch_guard.
Qed.

Lemma mismatched_feedback_is_discarded_witness :
  let w := VFOWheel.NewVFOWheel (V := int_VFO) (Build_MidiKey x00 x01) 0 1 in
  let b := RXChannelEnableButton.mk int_VFO (Build_MidiKey x00 x02) 0 1 true in
  VFOWheel.SetVFOFrequency w 0 0 7000000 = Returns w /\
  RXChannelEnableButton.SetRXChannelEnable b 1 1 false = (b, []).
Proof.
  intros w b. split.
  - apply (proj1 (mismatched_feedback_is_discarded (V := int_VFO) 0 0) w 7000000).
    right. discriminate.
  - apply (proj2 (mismatched_feedback_is_discarded (V := int_VFO) 1 1) b false).
    left. discriminate.
Defined.

(** ** Intake queues *)

(** C9 fails as stated: with 1000 events unprocessed the queue is full and
  the next report blocks its caller. *)
Lemma report_blocks_on_full_queue :
  length (Chan.buf (VFOWheel.turns (wheel_with_backlog 1000))) = 1000%nat /\
  VFOWheel.Turned (wheel_with_backlog 1000) 1 = Blocks /\
  length (Chan.buf (Slider.selectedValue (slider_with_backlog 1000))) = 1000%nat /\
  Slider.Changed (slider_with_backlog 1000) 64 = Blocks.
Proof. vm_compute. repeat split. Qed.

(** C9, as the code has it: [Turned] and [Changed] return without blocking,
  having appended the event to the queue, as long as the queue is open and
  fewer than 1000 earlier events are still unprocessed in it. *)
Theorem report_returns_while_queue_has_room {V : VFOType} :
  (forall (w : VFOWheel.t) (n : Z),
     Chan.cap (VFOWheel.turns w) = 1000%nat ->
     Chan.closed (VFOWheel.turns w) = false ->
     (length (Chan.buf (VFOWheel.turns w)) < 1000)%nat ->
     VFOWheel.Turned w n
       = Returns (VFOWheel.with_turns w
                    (Chan.mk (Chan.buf (VFOWheel.turns w) ++ [n]) 1000 false))) /\
  (forall (s : Slider.t) (value : Z),
     Chan.cap (Slider.selectedValue s) = 1000%nat ->
     Chan.closed (Slider.selectedValue s) = false ->
     (length (Chan.buf (Slider.selectedValue s)) < 1000)%nat ->
     Slider.Changed s value
       = Returns (Slider.with_selectedValue s
                    (Chan.mk (Chan.buf (Slider.selectedValue s) ++ [Slider.translate s value])
                       1000 false))).
Proof.
  split.
  - intros w n Hcap Hopen Hroom. unfold VFOWheel.Turned, Chan.send.
    rewrite Hopen, Hcap. apply Nat.ltb_lt in Hroom. now rewrite Hroom.
  - intros s value Hcap Hopen Hroom. unfold Slider.Changed, Chan.send.
    rewrite Hopen, Hcap. apply Nat.ltb_lt in Hroom. now rewrite Hroom.
Qed.

Lemma report_returns_while_queue_has_room_witness :
  (exists w, VFOWheel.Turned (wheel_with_backlog 999) (-2) = Returns w /\
             length (Chan.buf (VFOWheel.turns w)) = 1000%nat) /\
  (exists s, Slider.Changed (slider_with_backlog 999) 127 = Returns s /\
             last (Chan.buf (Slider.selectedValue s)) 1 = 0).
Proof.
  split.
  - eexists. split.
    + apply (proj1 (report_returns_while_queue_has_room (V := int_VFO))
               (wheel_with_backlog 999) (-2)); vm_compute; reflexivity.
    + vm_compute. reflexivity.
  - eexists. split.
    + apply (proj2 (report_returns_while_queue_has_room (V := int_VFO))
               (slider_with_backlog 999) 127); vm_compute; reflexivity.
    + vm_compute. reflexivity.
Defined.

(** ** Close *)

(** Once the goroutine of the wheel has returned, it handles nothing. *)
Lemma wheel_no_iteration_after_exit {V : VFOType} (w : VFOWheel.t) (c : VFOWheel.select_case) :
  VFOWheel.closed w = true -> VFOWheel.iterate w c = None.
Proof. intros Hc. unfold VFOWheel.iterate. now rewrite Hc. Qed.

(** Nothing reopens [closed], and a caller of [Close] returns only on seeing
  it closed. *)
Lemma wheel_act_closed {VT : VFOType}
    (w w' : VFOWheel.t) (pc pc' : VFOWheel.close_pc) (a : VFOWheel.action) :
  VFOWheel.act (w, pc) a = Some (w', pc') ->
  (VFOWheel.closed w = true -> VFOWheel.closed w' = true) /\
  (pc' = VFOWheel.Returned -> pc = VFOWheel.Returned \/ VFOWheel.closed w' = true).
Proof.
  intros Hact. destruct a as [c| |n|trx' vfo' f]; cbn in Hact.
  - destruct (VFOWheel.iterate w c) as [w1|] eqn:Hit; [|discriminate].
    cbn in Hact. injection Hact as <- <-. split; [|auto].
    intros Hc. rewrite wheel_no_iteration_after_exit in Hit by auto. discriminate.
  - destruct pc; cbn in Hact; try discriminate.
    + destruct (VFOWheel.closed w) eqn:Hc.
      * injection Hact as <- <-. auto.
      * destruct (Chan.close (VFOWheel.turns w)); injection Hact as <- <-;
          (split; [discriminate|discriminate]).
    + destruct (VFOWheel.closed w) eqn:Hc; [|discriminate].
      injection Hact as <- <-. auto.
  - destruct (VFOWheel.Turned w n) as [w1| |] eqn:Ht; try discriminate.
    injection Hact as <- <-. unfold VFOWheel.Turned in Ht.
    destruct (Chan.send (VFOWheel.turns w) n); try discriminate.
    injection Ht as <-. cbn. auto.
  - destruct (VFOWheel.SetVFOFrequency w trx' vfo' f) as [w1| |] eqn:Hs; try discriminate.
    injection Hact as <- <-. unfold VFOWheel.SetVFOFrequency in Hs.
    destruct (negb (trx' =? VFOWheel.trx w) || negb (VFO_eqb vfo' (VFOWheel.vfo w))).
    + injection Hs as <-. auto.
    + destruct (Chan.send (VFOWheel.frequency w) f); try discriminate.
      injection Hs as <-. cbn. auto.
Qed.

Lemma wheel_run_closed {VT : VFOType} (acts : list VFOWheel.action) :
  forall (w w' : VFOWheel.t) (pc pc' : VFOWheel.close_pc),
    VFOWheel.run (w, pc) acts = Some (w', pc') ->
    (VFOWheel.closed w = true -> VFOWheel.closed w' = true) /\
    (pc' = VFOWheel.Returned -> pc = VFOWheel.Returned \/ VFOWheel.closed w' = true).
Proof.
  induction acts as [|a acts IH]; intros w w' pc pc' Hrun.
  - cbn in Hrun. injection Hrun as <- <-. auto.
  - cbn [VFOWheel.run] in Hrun.
    destruct (VFOWheel.act (w, pc) a) as [[w1 pc1]|] eqn:Hact; [|discriminate].
    destruct (wheel_act_closed w w1 pc pc1 a Hact) as [Hstable Hret].
    destruct (IH w1 w' pc1 pc' Hrun) as [Hstable' Hret'].
    split; [auto|]. intros Hp. destruct (Hret' Hp) as [Hp1|Hc]; [|auto].
    destruct (Hret Hp1) as [Hp0|Hc1]; auto.
Qed.

(** With the queue of turns closed, the goroutine drains what is buffered
  and returns. *)
Lemma wheel_drains {VT : VFOType} (pc : VFOWheel.close_pc) :
  forall (n : nat) (w : VFOWheel.t),
    VFOWheel.closed w = false ->
    Chan.closed (VFOWheel.turns w) = true ->
    length (Chan.buf (VFOWheel.turns w)) = n ->
    exists w', VFOWheel.run (w, pc)
                 (repeat (VFOWheel.DoIterate VFOWheel.CaseTurns) (S n)) = Some (w', pc) /\
               VFOWheel.closed w' = true.
Proof.
  induction n as [|n IH]; intros w Hc Ht Hlen.
  - exists (VFOWheel.with_closed w). split; [|reflexivity].
    cbn. unfold VFOWheel.iterate, Chan.recv. rewrite Hc.
    destruct (Chan.buf (VFOWheel.turns w)); [|discriminate]. now rewrite Ht.
  - destruct (Chan.buf (VFOWheel.turns w)) as [|v rest] eqn:Hbuf; [discriminate|].
    set (w1 := VFOWheel.deliver
                 (VFOWheel.with_turns w (Chan.mk rest (Chan.cap (VFOWheel.turns w)) true))
                 (VFOWheel.Loop.Turns v)).
    destruct (IH w1) as (w' & Hrun & Hc'); try reflexivity.
    { cbn. assumption. }
    { cbn in *. congruence. }
    exists w'. split; [|assumption].
    change (repeat _ (S (S n))) with
      (VFOWheel.DoIterate VFOWheel.CaseTurns
         :: repeat (VFOWheel.DoIterate VFOWheel.CaseTurns) (S n)).
    cbn [VFOWheel.run VFOWheel.act]. unfold VFOWheel.iterate, Chan.recv.
    rewrite Hc, Hbuf, Ht. cbn [option_map]. exact Hrun.
Qed.

Lemma slider_handle_frame (s : Slider.t) (e : Slider.Loop.event) :
  Slider.closed (Slider.handle s e) = Slider.closed s /\
  Slider.activeValue (Slider.handle s e) = Slider.activeValue s /\
  Slider.selectedValue (Slider.handle s e) = Slider.selectedValue s /\
  Slider.translate (Slider.handle s e) = Slider.translate s.
Proof.
  unfold Slider.handle.
  destruct (Slider.Loop.step _ _ _) as [l [v|]]; cbn; auto.
Qed.

Lemma slider_no_iteration_after_exit (s : Slider.t) (c : Slider.select_case) :
  Slider.closed s = true -> Slider.iterate s c = None.
Proof. intros Hc. unfold Slider.iterate. now rewrite Hc. Qed.

Lemma slider_act_closed
    (s s' : Slider.t) (pc pc' : Slider.close_pc) (a : Slider.action) :
  Slider.act (s, pc) a = Some (s', pc') ->
  (Slider.closed s = true -> Slider.closed s' = true) /\
  (pc' = Slider.Returned -> pc = Slider.Returned \/ Slider.closed s' = true).
Proof.
  intros Hact. destruct a as [c| | | |v|v]; cbn in Hact.
  - destruct (Slider.iterate s c) as [s1|] eqn:Hit; [|discriminate].
    cbn in Hact. injection Hact as <- <-. split; [|auto].
    intros Hc. rewrite slider_no_iteration_after_exit in Hit by auto. discriminate.
  - unfold Slider.executor_arrives in Hact.
    destruct (Slider.exec s); cbn in Hact; try discriminate.
    injection Hact as <- <-. cbn. auto.
  - unfold Slider.executor_leaves in Hact.
    destruct (Slider.exec s); cbn in Hact; try discriminate.
    destruct (Slider.closed s) eqn:Hc; cbn in Hact; [|discriminate].
    injection Hact as <- <-. cbn. auto.
  - destruct pc; cbn in Hact; try discriminate.
    + destruct (Slider.closed s) eqn:Hc.
      * injection Hact as <- <-. auto.
      * destruct (Chan.close (Slider.activeValue s)); injection Hact as <- <-;
          (split; discriminate).
    + destruct (Chan.close (Slider.selectedValue s)); injection Hact as <- <-;
        (split; [cbn; auto|discriminate]).
    + destruct (Slider.closed s) eqn:Hc; [|discriminate].
      injection Hact as <- <-. auto.
  - unfold Slider.Changed in Hact.
    destruct (Chan.send (Slider.selectedValue s) (Slider.translate s v)); try discriminate.
    injection Hact as <- <-. cbn. auto.
  - unfold Slider.SetVolume in Hact.
    destruct (Chan.send (Slider.activeValue s) v); try discriminate.
    injection Hact as <- <-. cbn. auto.
Qed.

Lemma slider_run_closed (acts : list Slider.action) :
  forall (s s' : Slider.t) (pc pc' : Slider.close_pc),
    Slider.run (s, pc) acts = Some (s', pc') ->
    (Slider.closed s = true -> Slider.closed s' = true) /\
    (pc' = Slider.Returned -> pc = Slider.Returned \/ Slider.closed s' = true).
Proof.
  induction acts as [|a acts IH]; intros s s' pc pc' Hrun.
  - cbn in Hrun. injection Hrun as <- <-. auto.
  - cbn [Slider.run] in Hrun.
    destruct (Slider.act (s, pc) a) as [[s1 pc1]|] eqn:Hact; [|discriminate].
    destruct (slider_act_closed s s1 pc pc1 a Hact) as [Hstable Hret].
    destruct (IH s1 s' pc1 pc' Hrun) as [Hstable' Hret'].
    split; [auto|]. intros Hp. destruct (Hret' Hp) as [Hp1|Hc]; [|auto].
    destruct (Hret Hp1) as [Hp0|Hc1]; auto.
Qed.

(** With the queue of active values closed, the deciding goroutine drains
  what is buffered there and returns. *)
Lemma slider_drains (pc : Slider.close_pc) :
  forall (n : nat) (s : Slider.t),
    Slider.closed s = false ->
    Chan.closed (Slider.activeValue s) = true ->
    length (Chan.buf (Slider.activeValue s)) = n ->
    exists s', Slider.run (s, pc)
                 (repeat (Slider.DoIterate Slider.CaseActive) (S n)) = Some (s', pc) /\
               Slider.closed s' = true.
Proof.
  induction n as [|n IH]; intros s Hc Ht Hlen.
  - exists (Slider.with_closed s). split; [|reflexivity].
    cbn. unfold Slider.iterate, Chan.recv. rewrite Hc.
    destruct (Chan.buf (Slider.activeValue s)); [|discriminate]. now rewrite Ht.
  - destruct (Chan.buf (Slider.activeValue s)) as [|v rest] eqn:Hbuf; [discriminate|].
    set (s1 := Slider.handle
                 (Slider.with_activeValue s (Chan.mk rest (Chan.cap (Slider.activeValue s)) true))
                 (Slider.Loop.Active v)).
    destruct (slider_handle_frame
                (Slider.with_activeValue s (Chan.mk rest (Chan.cap (Slider.activeValue s)) true))
                (Slider.Loop.Active v)) as (Hfc & Hfa & _).
    destruct (IH s1) as (s' & Hrun & Hc').
    { unfold s1. rewrite Hfc. assumption. }
    { unfold s1. rewrite Hfa. reflexivity. }
    { unfold s1. rewrite Hfa. cbn in *. congruence. }
    exists s'. split; [|assumption].
    change (repeat _ (S (S n))) with
      (Slider.DoIterate Slider.CaseActive
         :: repeat (Slider.DoIterate Slider.CaseActive) (S n)).
    cbn [Slider.run Slider.act]. unfold Slider.iterate, Chan.recv.
    rewrite Hc, Hbuf, Ht. cbn [option_map]. exact Hrun.
Qed.

Lemma wheel_run_app {VT : VFOType} (a1 a2 : list VFOWheel.action) :
  forall st : VFOWheel.t * VFOWheel.close_pc,
    VFOWheel.run st (a1 ++ a2)
      = match VFOWheel.run st a1 with
        | Some st' => VFOWheel.run st' a2
        | None => None
        end.
Proof.
  induction a1 as [|a a1 IH]; intros st; [reflexivity|].
  cbn [app VFOWheel.run]. destruct (VFOWheel.act st a); [apply IH|reflexivity].
Qed.

Lemma slider_run_app (a1 a2 : list Slider.action) :
  forall st : Slider.t * Slider.close_pc,
    Slider.run st (a1 ++ a2)
      = match Slider.run st a1 with
        | Some st' => Slider.run st' a2
        | None => None
        end.
Proof.
  induction a1 as [|a a1 IH]; intros st; [reflexivity|].
  cbn [app Slider.run]. destruct (Slider.act st a); [apply IH|reflexivity].
Qed.

(** C7: for the wheel and for the slider alike, under every schedule a call
  of [Close] returns only in a state where the goroutine of the event loop
  has returned ([closed] is closed); from then on the loop handles no event,
  [closed] stays closed whatever else is called, and a further [Close]
  returns in its first step leaving the instance as it is.  A first [Close]
  does return: the loop drains its closed queue and leaves. *)
Theorem close_joins_the_loop_and_is_idempotent {VT : VFOType} :
  ((forall (w w1 : VFOWheel.t) (acts : list VFOWheel.action),
      VFOWheel.run (w, VFOWheel.AtSelect) acts = Some (w1, VFOWheel.Returned) ->
      VFOWheel.closed w1 = true) /\
   (forall w : VFOWheel.t,
      VFOWheel.closed w = true ->
      VFOWheel.Close w VFOWheel.AtSelect = Some (w, VFOWheel.Returned) /\
      (forall c, VFOWheel.iterate w c = None) /\
      (forall acts pc w' pc',
         VFOWheel.run (w, pc) acts = Some (w', pc') -> VFOWheel.closed w' = true)) /\
   (forall w : VFOWheel.t,
      VFOWheel.closed w = false ->
      Chan.closed (VFOWheel.turns w) = false ->
      exists acts w1,
        VFOWheel.run (w, VFOWheel.AtSelect) acts = Some (w1, VFOWheel.Returned))) /\
  ((forall (s s1 : Slider.t) (acts : list Slider.action),
      Slider.run (s, Slider.AtSelect) acts = Some (s1, Slider.Returned) ->
      Slider.closed s1 = true) /\
   (forall s : Slider.t,
      Slider.closed s = true ->
      Slider.Close s Slider.AtSelect = Some (s, Slider.Returned) /\
      (forall c, Slider.iterate s c = None) /\
      (forall acts pc s' pc',
         Slider.run (s, pc) acts = Some (s', pc') -> Slider.closed s' = true)) /\
   (forall s : Slider.t,
      Slider.closed s = false ->
      Chan.closed (Slider.activeValue s) = false ->
      Chan.closed (Slider.selectedValue s) = false ->
      exists acts s1,
        Slider.run (s, Slider.AtSelect) acts = Some (s1, Slider.Returned))).
Proof.
  split; split; [| split | | split].
  - intros w w1 acts Hrun.
    destruct (proj2 (wheel_run_closed acts _ _ _ _ Hrun) eq_refl); [discriminate|assumption].
  - intros w Hc. split; [cbn; now rewrite Hc|]. split.
    + intros c. now apply wheel_no_iteration_after_exit.
    + intros acts pc w' pc' Hrun. exact (proj1 (wheel_run_closed acts _ _ _ _ Hrun) Hc).
  - intros w Hc Hopen.
    set (ch := Chan.mk (Chan.buf (VFOWheel.turns w)) (Chan.cap (VFOWheel.turns w)) true).
    destruct (wheel_drains VFOWheel.AtWait (length (Chan.buf (VFOWheel.turns w)))
                (VFOWheel.with_turns w ch) Hc eq_refl eq_refl) as (w1 & Hrun & Hc1).
    exists (VFOWheel.DoClose
              :: repeat (VFOWheel.DoIterate VFOWheel.CaseTurns)
                   (S (length (Chan.buf (VFOWheel.turns w))))
              ++ [VFOWheel.DoClose]), w1.
    cbn [VFOWheel.run VFOWheel.act VFOWheel.Close]. unfold Chan.close.
    rewrite Hc, Hopen. fold ch. rewrite wheel_run_app, Hrun.
    cbn. now rewrite Hc1.
  - intros s s1 acts Hrun.
    destruct (proj2 (slider_run_closed acts _ _ _ _ Hrun) eq_refl); [discriminate|assumption].
  - intros s Hc. split; [cbn; now rewrite Hc|]. split.
    + intros c. now apply slider_no_iteration_after_exit.
    + intros acts pc s' pc' Hrun. exact (proj1 (slider_run_closed acts _ _ _ _ Hrun) Hc).
  - intros s Hc Hopen1 Hopen2.
    set (ca := Chan.mk (Chan.buf (Slider.activeValue s)) (Chan.cap (Slider.activeValue s)) true).
    set (cs := Chan.mk (Chan.buf (Slider.selectedValue s)) (Chan.cap (Slider.selectedValue s)) true).
    destruct (slider_drains Slider.AtWait (length (Chan.buf (Slider.activeValue s)))
                (Slider.with_selectedValue (Slider.with_activeValue s ca) cs)
                Hc eq_refl eq_refl) as (s1 & Hrun & Hc1).
    exists (Slider.DoClose :: Slider.DoClose
              :: repeat (Slider.DoIterate Slider.CaseActive)
                   (S (length (Chan.buf (Slider.activeValue s))))
              ++ [Slider.DoClose]), s1.
    cbn [Slider.run Slider.act Slider.Close]. unfold Chan.close at 1.
    rewrite Hc, Hopen1. fold ca.
    cbn [Slider.run Slider.act Slider.Close Slider.selectedValue Slider.with_activeValue].
    unfold Chan.close at 1. rewrite Hopen2. fold cs.
    rewrite slider_run_app, Hrun. cbn. now rewrite Hc1.
Qed.

Lemma close_joins_the_loop_and_is_idempotent_witness :
  let w1 :=
    VFOWheel.mk int_VFO (Build_MidiKey x00 x01) 0 0
      (Chan.mk [] 1000 false) (Chan.mk [] 1000 true) true
      (VFOWheel.Loop.mk 2 false 0) [] in
  let s1 :=
    Slider.mk VolumeSlider.translate
      (Chan.mk [] 1000 true) (Chan.mk [-30] 1000 true) true
      (Slider.Loop.mk 0 (-30) true) Slider.ExecBusy [-30] in
  (VFOWheel.run (wheel_with_backlog 2, VFOWheel.AtSelect)
     [VFOWheel.DoClose; VFOWheel.DoIterate VFOWheel.CaseTurns;
      VFOWheel.DoIterate (VFOWheel.CaseTick false);
      VFOWheel.DoIterate VFOWheel.CaseTurns;
      VFOWheel.DoIterate VFOWheel.CaseTurns; VFOWheel.DoClose]
   = Some (w1, VFOWheel.Returned) /\
   VFOWheel.closed w1 = true /\
   VFOWheel.Close w1 VFOWheel.AtSelect = Some (w1, VFOWheel.Returned)) /\
  (Slider.run (slider_with_backlog 2, Slider.AtSelect)
     [Slider.DoExecutorArrives; Slider.DoClose;
      Slider.DoIterate Slider.CaseSelected; Slider.DoClose;
      Slider.DoIterate Slider.CaseTick;
      Slider.DoIterate Slider.CaseActive; Slider.DoClose]
   = Some (s1, Slider.Returned) /\
   Slider.closed s1 = true /\
   Slider.Close s1 Slider.AtSelect = Some (s1, Slider.Returned)).
Proof.
  intros w1 s1.
  pose proof (close_joins_the_loop_and_is_idempotent (VT := int_VFO))
    as [(Wjoin & Wagain & _) (Sjoin & Sagain & _)].
  split.
  - match goal with |- ?R /\ _ => assert (Hrun : R) by reflexivity end.
    split; [exact Hrun|].
    pose proof (Wjoin _ _ _ Hrun) as Hclosed.
    split; [exact Hclosed | exact (proj1 (Wagain w1 Hclosed))].
  - match goal with |- ?R /\ _ => assert (Hrun : R) by reflexivity end.
    split; [exact Hrun|].
    pose proof (Sjoin _ _ _ Hrun) as Hclosed.
    split; [exact Hclosed | exact (proj1 (Sagain s1 Hclosed))].
Defined.

(** ** The value coalescer *)

(** C3, as the code has it: an active report sets [activeValue] to the
  reported value and overwrites [selectedValue] with it exactly when
  [pending] is false, whether or not a target has been set before; with
  [pending] true [selectedValue] is kept.  [pending], the executor and the
  calls of [set] are untouched. *)
Theorem active_report_tracks_unless_pending :
  forall (s : Slider.t) (value : Z),
    let s' := Slider.handle s (Slider.Loop.Active value) in
    Slider.Loop.activeValue (Slider.loop s') = value /\
    Slider.Loop.selectedValue (Slider.loop s')
      = (if Slider.Loop.pending (Slider.loop s)
         then Slider.Loop.selectedValue (Slider.loop s) else value) /\
    Slider.Loop.pending (Slider.loop s') = Slider.Loop.pending (Slider.loop s) /\
    Slider.exec s' = Slider.exec s /\
    Slider.calls s' = Slider.calls s.
Proof. intros s value s'. subst s'. cbn. repeat split. Qed.

(** C3 fails as stated: a target has been set and handed over, [pending] is
  false, and the next active report overwrites [selectedValue] all the
  same. *)
Lemma active_report_overwrites_a_set_target :
  let hs := [Slider.ExecutorArrived; Slider.Handled (Slider.Loop.Selected 5)] in
  let s := Slider.after (Slider.NewSlider (fun v => v)) hs in
  existsb is_target hs = true /\
  Slider.Loop.pending (Slider.loop s) = false /\
  Slider.Loop.selectedValue (Slider.loop s) = 5 /\
  Slider.Loop.selectedValue (Slider.loop (Slider.handle s (Slider.Loop.Active 3)))
    <> Slider.Loop.selectedValue (Slider.loop s).
Proof. vm_compute. repeat split. discriminate. Qed.

(** What one target report does: a call of [set] exactly when the target
  differs from [activeValue] and the executor is waiting. *)
Lemma target_report_step (s : Slider.t) (v : Z) :
  let s' := Slider.handle s (Slider.Loop.Selected v) in
  Slider.Loop.selectedValue (Slider.loop s') = v /\
  Slider.Loop.activeValue (Slider.loop s') = Slider.Loop.activeValue (Slider.loop s) /\
  ((Slider.Loop.activeValue (Slider.loop s) <> v /\ Slider.exec s = Slider.ExecWaiting /\
    Slider.calls s' = Slider.calls s ++ [v] /\ Slider.exec s' = Slider.ExecBusy) \/
   ((Slider.Loop.activeValue (Slider.loop s) = v \/ Slider.exec s <> Slider.ExecWaiting) /\
    Slider.calls s' = Slider.calls s /\ Slider.exec s' = Slider.exec s)).
Proof.
  unfold Slider.handle, Slider.Loop.step, Slider.Loop.try_send.
  destruct (Z.eqb_spec (Slider.Loop.activeValue (Slider.loop s)) v) as [Heq|Hne].
  - cbn. repeat split. right. auto.
  - cbn [Slider.Loop.activeValue Slider.Loop.selectedValue Slider.Loop.pending].
    destruct (Slider.exec s) eqn:Hx; cbn.
    + repeat split. left. auto.
    + repeat split. right. repeat split. right. discriminate.
    + repeat split. right. repeat split. right. discriminate.
Qed.

Lemma executor_arrival_frame (s : Slider.t) :
  let s' := Slider.happen s Slider.ExecutorArrived in
  Slider.loop s' = Slider.loop s /\ Slider.calls s' = Slider.calls s.
Proof.
  cbn. unfold Slider.executor_arrives. destruct (Slider.exec s); cbn; auto.
Qed.

Lemma last_cons_default (v d : Z) (l : list Z) : last (v :: l) d = last l v.
Proof.
  revert v d. induction l as [|x l IH]; intros v d; [reflexivity|].
  change (last (v :: x :: l) d) with (last (x :: l) d).
  change (last (x :: l) v) with (last (x :: l) v).
  now rewrite !IH.
Qed.

(** A tick window: the selected value ends as the last target, and every
  call made carries a target of the window that differs from the active
  value, at most one call per target. *)
Lemma window_calls (hs : list Slider.happening) :
  forall s : Slider.t,
    forallb in_window hs = true ->
    Slider.Loop.activeValue (Slider.loop (Slider.after s hs))
      = Slider.Loop.activeValue (Slider.loop s) /\
    Slider.Loop.selectedValue (Slider.loop (Slider.after s hs))
      = last (targets hs) (Slider.Loop.selectedValue (Slider.loop s)) /\
    exists new,
      Slider.calls (Slider.after s hs) = Slider.calls s ++ new /\
      (length new <= length (targets hs))%nat /\
      (forall v, In v new ->
         In v (targets hs) /\ v <> Slider.Loop.activeValue (Slider.loop s)).
Proof.
  induction hs as [|h hs IH]; intros s Hw.
  - cbn. split; [reflexivity|]. split; [reflexivity|].
    exists []. rewrite app_nil_r. split; [reflexivity|]. split; [apply Nat.le_refl|].
    intros v [].
  - cbn [forallb] in Hw. apply andb_prop in Hw as [Hh Hw].
    change (Slider.after s (h :: hs)) with (Slider.after (Slider.happen s h) hs).
    destruct (IH (Slider.happen s h) Hw) as (Ha & Hsel & new & Hcalls & Hlen & Hin).
    destruct h as [[value|v|]|]; cbn in Hh; try discriminate.
    + destruct (target_report_step s v) as (Hs & Hact & Hcase).
      change (Slider.happen s (Slider.Handled (Slider.Loop.Selected v)))
        with (Slider.handle s (Slider.Loop.Selected v)) in *.
      change (targets (Slider.Handled (Slider.Loop.Selected v) :: hs))
        with (v :: targets hs).
      rewrite Ha, Hsel, Hs, Hact, last_cons_default. repeat split.
      rewrite Hact in Hin.
      destruct Hcase as [(Hne & _ & Hc & _)|(_ & Hc & _)]; rewrite Hc in Hcalls.
      * exists (v :: new). rewrite Hcalls, <- app_assoc. repeat split.
        -- cbn. lia.
        -- destruct H as [<-|H]; [now left|right; now apply Hin].
        -- destruct H as [<-|H]; [congruence|now apply Hin].
      * exists new. repeat split; [assumption|cbn; lia| |]; intros; try (right; now apply Hin).
        now apply Hin.
    + destruct (executor_arrival_frame s) as (Hl & Hc).
      cbn zeta in Hl, Hc. rewrite Hl in Ha, Hsel, Hin. rewrite Hc in Hcalls.
      change (targets (Slider.ExecutorArrived :: hs)) with (targets hs).
      repeat split; try assumption. exists new. repeat split; try assumption; now apply Hin.
Qed.






(** ** The volume slider *)

(** On MIDI values the float computation is the exact quotient. *)
Lemma translate_closed_form (v : Z) :
  0 <= v <= 127 -> VolumeSlider.translate v = -60 + 60 * v / 127.
Proof.
  intros Hv.
  assert (Hall : forallb (fun n => VolumeSlider.translate (Z.of_nat n)
                                     =? -60 + 60 * Z.of_nat n / 127)
                   (seq 0 128) = true) by (vm_compute; reflexivity).
  rewrite forallb_forall in Hall.
  specialize (Hall (Z.to_nat v)). rewrite Z2Nat.id in Hall by lia.
  apply Z.eqb_eq, Hall, in_seq. lia.
Qed.

(** C10: on MIDI values 0..127 the translation stays within -60..0, never
  decreases as the input grows, and sends 0 to -60 and 127 to 0. *)
Theorem volume_translation_range_and_monotone :
  (forall v, 0 <= v <= 127 -> -60 <= VolumeSlider.translate v <= 0) /\
  (forall v w, 0 <= v -> v <= w -> w <= 127 ->
     VolumeSlider.translate v <= VolumeSlider.translate w) /\
  VolumeSlider.translate 0 = -60 /\
  VolumeSlider.translate 127 = 0.
Proof.
  split; [|split; [|split; reflexivity]].
  - intros v Hv. rewrite translate_closed_form by assumption.
    assert (0 <= 60 * v / 127) by (apply Z.div_pos; lia).
    assert (60 * v / 127 <= 60) by (apply Z.div_le_upper_bound; lia).
    lia.
  - intros v w Hv Hvw Hw. rewrite !translate_closed_form by lia.
    assert (60 * v / 127 <= 60 * w / 127) by (apply Z.div_le_mono; lia).
    lia.
Qed.

Lemma volume_translation_range_and_monotone_witness :
  -60 <= VolumeSlider.translate 64 <= 0 /\
  VolumeSlider.translate 63 <= VolumeSlider.translate 64.
Proof.
  split.
  - apply (proj1 volume_translation_range_and_monotone 64). lia.
  - apply (proj1 (proj2 volume_translation_range_and_monotone) 63 64); lia.
Defined.

(** * Further properties *)

(** ** Buttons *)

Lemma last_cons {A : Type} (v d : A) (l : list A) : last (v :: l) d = last l v.
Proof.
  revert v d. induction l as [|x l IH]; intros v d; [reflexivity|].
  change (last (v :: x :: l) d) with (last (x :: l) d).
  now rewrite !IH.
Qed.

(** X1: whatever presses and feedback a mute button receives, its state is
  the last feedback value (presses never change it), its LED was set once per
  feedback, to on exactly when not muted, and a press asks the muter for the
  opposite of the last feedback. *)
Theorem mute_button_follows_feedback :
  forall (ins : list MuteButton.input) (b : MuteButton.t) (err : bool),
    let b' := fst (MuteButton.run b ins) in
    let m := last (mute_feedbacks ins) (MuteButton.muted b) in
    MuteButton.key b' = MuteButton.key b /\
    MuteButton.muted b' = m /\
    mute_leds (snd (MuteButton.run b ins))
      = map (fun x => MuteButton.LedSet (MuteButton.key b) (negb x)) (mute_feedbacks ins) /\
    MuteButton.Pressed b' err
      = (b', MuteButton.CallSetMute (negb m)
               :: (if err then [MuteButton.LogPrint] else [])).
Proof.
  induction ins as [|i ins IH]; intros b err.
  - cbn. repeat split.
  - cbn [MuteButton.run]. destruct i as [e|x].
    + cbn [MuteButton.handle MuteButton.Pressed].
      specialize (IH b err). cbn zeta in IH.
      destruct (MuteButton.run b ins) as [b2 out2]. cbn [fst snd] in *.
      destruct IH as (Hk & Hm & Hl & Hp).
      change (mute_feedbacks (MuteButton.Press e :: ins)) with (mute_feedbacks ins).
      repeat split; try assumption.
      unfold mute_leds in *. cbn [app filter]. destruct e; cbn [app filter]; exact Hl.
    + cbn [MuteButton.handle MuteButton.SetMute].
      specialize (IH (MuteButton.mk (MuteButton.key b) x) err). cbn zeta in IH.
      destruct (MuteButton.run (MuteButton.mk (MuteButton.key b) x) ins) as [b2 out2].
      cbn [fst snd MuteButton.key MuteButton.muted] in *.
      destruct IH as (Hk & Hm & Hl & Hp).
      change (mute_feedbacks (MuteButton.Feedback x :: ins)) with (x :: mute_feedbacks ins).
      rewrite last_cons. repeat split; try assumption.
      unfold mute_leds in *. cbn [app filter map]. now rewrite Hl.
Qed.

Lemma rx_feedback_step {V : VFOType} (b : RXChannelEnableButton.t)
    (trx' : Z) (vfo' : VFO) (enabled' : bool) :
  RXChannelEnableButton.SetRXChannelEnable b trx' vfo' enabled'
    = if (trx' =? RXChannelEnableButton.trx b) && VFO_eqb vfo' (RXChannelEnableButton.vfo b)
      then (RXChannelEnableButton.mk V (RXChannelEnableButton.key b)
              (RXChannelEnableButton.trx b) (RXChannelEnableButton.vfo b) enabled',
            [RXChannelEnableButton.LedSet (RXChannelEnableButton.key b) enabled'])
      else (b, []).
Proof.
  unfold RXChannelEnableButton.SetRXChannelEnable.
  destruct (trx' =? RXChannelEnableButton.trx b);
    destruct (VFO_eqb vfo' (RXChannelEnableButton.vfo b)); reflexivity.
Qed.

(** X2: after any sequence of feedback events an RX channel button holds the
  value of the last event for its own transceiver and VFO (its initial value
  if there was none), its LED was set once per such event, in order and to
  the value of the event, and a press asks the enabler for the opposite of
  that value on the button's own transceiver and VFO. *)
Theorem rx_button_follows_matching_feedback {V : VFOType} :
  forall (fs : list (Z * VFO * bool)) (b : RXChannelEnableButton.t) (err : bool),
    let b' := fst (RXChannelEnableButton.feed b fs) in
    let vs := rx_matching (RXChannelEnableButton.trx b) (RXChannelEnableButton.vfo b) fs in
    let e := last vs (RXChannelEnableButton.enabled b) in
    b' = RXChannelEnableButton.mk V (RXChannelEnableButton.key b)
           (RXChannelEnableButton.trx b) (RXChannelEnableButton.vfo b) e /\
    snd (RXChannelEnableButton.feed b fs)
      = map (RXChannelEnableButton.LedSet (RXChannelEnableButton.key b)) vs /\
    RXChannelEnableButton.Pressed b' err
      = (b', RXChannelEnableButton.CallSetRXChannelEnable
               (RXChannelEnableButton.trx b) (RXChannelEnableButton.vfo b) (negb e)
               :: (if err then [RXChannelEnableButton.LogPrint] else [])).
Proof.
  induction fs as [|[[trx' vfo'] enabled'] fs IH]; intros b err.
  - cbn. destruct b; repeat split.
  - cbn [RXChannelEnableButton.feed]. rewrite rx_feedback_step.
    unfold rx_matching. cbn [flat_map]. fold (rx_matching (RXChannelEnableButton.trx b)
                                                (RXChannelEnableButton.vfo b) fs).
    destruct ((trx' =? RXChannelEnableButton.trx b)
              && VFO_eqb vfo' (RXChannelEnableButton.vfo b)).
    + specialize (IH (RXChannelEnableButton.mk V (RXChannelEnableButton.key b)
                        (RXChannelEnableButton.trx b) (RXChannelEnableButton.vfo b) enabled') err).
      cbn zeta in IH.
      destruct (RXChannelEnableButton.feed _ fs) as [b2 out2].
      cbn [fst snd RXChannelEnableButton.key RXChannelEnableButton.trx
             RXChannelEnableButton.vfo RXChannelEnableButton.enabled] in *.
      destruct IH as (Hb & Hl & Hp).
      cbn [app]. rewrite last_cons. cbn [map]. rewrite Hl. repeat split; assumption.
    + specialize (IH b err). cbn zeta in IH.
      destruct (RXChannelEnableButton.feed b fs) as [b2 out2]. cbn [fst snd app] in *.
      exact IH.
Qed.

(** X3: the same for a split button, which filters its feedback by
  transceiver only. *)
Theorem split_button_follows_matching_feedback :
  forall (fs : list (Z * bool)) (b : SplitEnableButton.t) (err : bool),
    let b' := fst (SplitEnableButton.feed b fs) in
    let vs := split_matching (SplitEnableButton.trx b) fs in
    let e := last vs (SplitEnableButton.enabled b) in
    b' = SplitEnableButton.mk (SplitEnableButton.key b) (SplitEnableButton.trx b) e /\
    snd (SplitEnableButton.feed b fs)
      = map (SplitEnableButton.LedSet (SplitEnableButton.key b)) vs /\
    SplitEnableButton.Pressed b' err
      = (b', SplitEnableButton.CallSetSplitEnable (SplitEnableButton.trx b) (negb e)
               :: (if err then [SplitEnableButton.LogPrint] else [])).
Proof.
  induction fs as [|[trx' enabled'] fs IH]; intros b err.
  - cbn. destruct b; repeat split.
  - cbn [SplitEnableButton.feed]. unfold SplitEnableButton.SetSplitEnable.
    unfold split_matching. cbn [flat_map]. fold (split_matching (SplitEnableButton.trx b) fs).
    destruct (trx' =? SplitEnableButton.trx b); cbn [negb].
    + specialize (IH (SplitEnableButton.mk (SplitEnableButton.key b)
                        (SplitEnableButton.trx b) enabled') err).
      cbn zeta in IH.
      destruct (SplitEnableButton.feed _ fs) as [b2 out2].
      cbn [fst snd SplitEnableButton.key SplitEnableButton.trx SplitEnableButton.enabled] in *.
      destruct IH as (Hb & Hl & Hp).
      cbn [app]. rewrite last_cons. cbn [map]. rewrite Hl. repeat split; assumption.
    + specialize (IH b err). cbn zeta in IH.
      destruct (SplitEnableButton.feed b fs) as [b2 out2]. cbn [fst snd app] in *.
      exact IH.
Qed.

(** ** The wheel: from the queue to the loop *)

Lemma loop_run_app {V : VFOType} (trx : Z) (vfo : VFO) (es1 es2 : list Loop.event) :
  forall s : Loop.t,
    Loop.run trx vfo s (es1 ++ es2)
      = (fst (Loop.run trx vfo (fst (Loop.run trx vfo s es1)) es2),
         snd (Loop.run trx vfo s es1)
           ++ snd (Loop.run trx vfo (fst (Loop.run trx vfo s es1)) es2)).
Proof.
  induction es1 as [|e es1 IH]; intros s.
  - cbn. now destruct (Loop.run trx vfo s es2).
  - cbn [app Loop.run]. destruct (Loop.step trx vfo s e) as [s1 o1].
    rewrite IH. destruct (Loop.run trx vfo s1 es1) as [s2 o2]. cbn [fst snd].
    now rewrite app_assoc.
Qed.

(** Handling turns only accumulates. *)
Lemma loop_run_turns {V : VFOType} (trx : Z) (vfo : VFO) (ns : list Z) :
  forall s : Loop.t,
    Loop.run trx vfo s (map Loop.Turns ns)
      = (Loop.mk (fold_left GoInt.add ns (Loop.accumulatedTurns s))
           (match ns with [] => Loop.turning s | _ => 0 <? Loop.frequency s end)
           (Loop.frequency s), []).
Proof.
  induction ns as [|n ns IH]; intros s.
  - cbn. now destruct s.
  - cbn [map Loop.run Loop.step]. rewrite IH.
    cbn [Loop.accumulatedTurns Loop.turning Loop.frequency fold_left app].
    now destruct ns.
Qed.

(** Calls of [Turned] that find room put their values at the end of the
  queue. *)
Lemma wheel_turned_all {V : VFOType} (pc : VFOWheel.close_pc) (ns : list Z) :
  forall w : VFOWheel.t,
    Chan.closed (VFOWheel.turns w) = false ->
    (length (Chan.buf (VFOWheel.turns w)) + length ns <= Chan.cap (VFOWheel.turns w))%nat ->
    VFOWheel.run (w, pc) (map VFOWheel.DoTurned ns)
      = Some (VFOWheel.with_turns w
                (Chan.mk (Chan.buf (VFOWheel.turns w) ++ ns)
                   (Chan.cap (VFOWheel.turns w)) false), pc).
Proof.
  induction ns as [|n ns IH]; intros w Hopen Hroom.
  - cbn. rewrite app_nil_r. destruct w as [k t v f [b c cl] x l tr]. cbn in *. now subst cl.
  - cbn [map VFOWheel.run VFOWheel.act]. unfold VFOWheel.Turned, Chan.send.
    rewrite Hopen. cbn [length] in Hroom.
    assert (Hlt : (length (Chan.buf (VFOWheel.turns w)) <? Chan.cap (VFOWheel.turns w))%nat = true)
      by (apply Nat.ltb_lt; lia).
    rewrite Hlt, IH.
    + cbn. now rewrite <- app_assoc.
    + reflexivity.
    + cbn. rewrite length_app. cbn. lia.
Qed.

(** The goroutine takes what is queued, in order, and only accumulates. *)
Lemma wheel_takes_turns {V : VFOType} (pc : VFOWheel.close_pc) (ns : list Z) :
  forall w : VFOWheel.t,
    VFOWheel.closed w = false ->
    Chan.buf (VFOWheel.turns w) = ns ->
    VFOWheel.run (w, pc) (repeat (VFOWheel.DoIterate VFOWheel.CaseTurns) (length ns))
      = Some (VFOWheel.mk V (VFOWheel.key w) (VFOWheel.trx w) (VFOWheel.vfo w)
                (VFOWheel.frequency w)
                (Chan.mk [] (Chan.cap (VFOWheel.turns w)) (Chan.closed (VFOWheel.turns w)))
                false
                (fst (Loop.run (VFOWheel.trx w) (VFOWheel.vfo w) (VFOWheel.loop w)
                        (map Loop.Turns ns)))
                (VFOWheel.trace w), pc).
Proof.
  induction ns as [|n ns IH]; intros w Hc Hbuf.
  - cbn. destruct w as [k t v f [b c cl] x l tr]. cbn in *. now subst.
  - cbn [length repeat VFOWheel.run VFOWheel.act]. unfold VFOWheel.iterate, Chan.recv.
    rewrite Hc, Hbuf. cbn [option_map].
    rewrite IH; [|cbn; assumption|reflexivity].
    unfold VFOWheel.deliver. cbn. rewrite app_nil_r.
    now destruct (Loop.run _ _ _ (map Loop.Turns ns)).
Qed.

(** X4: no turn is lost between [Turned] and the loop.  On a running wheel
  with an empty, open queue, any number of reported turns up to the capacity
  of the queue are all accepted, and once the goroutine has taken them the
  queue is empty again, [accumulatedTurns] has grown by their sum (Go's
  [int] sum) and no call of the controller was made for them. *)
Theorem reported_turns_all_reach_the_accumulator {V : VFOType} :
  forall (w : VFOWheel.t) (pc : VFOWheel.close_pc) (ns : list Z),
    VFOWheel.closed w = false ->
    Chan.closed (VFOWheel.turns w) = false ->
    Chan.buf (VFOWheel.turns w) = [] ->
    (length ns <= Chan.cap (VFOWheel.turns w))%nat ->
    exists w',
      VFOWheel.run (w, pc)
        (map VFOWheel.DoTurned ns
           ++ repeat (VFOWheel.DoIterate VFOWheel.CaseTurns) (length ns))
        = Some (w', pc) /\
      Chan.buf (VFOWheel.turns w') = [] /\
      Loop.accumulatedTurns (VFOWheel.loop w')
        = fold_left GoInt.add ns (Loop.accumulatedTurns (VFOWheel.loop w)) /\
      Loop.frequency (VFOWheel.loop w') = Loop.frequency (VFOWheel.loop w) /\
      VFOWheel.trace w' = VFOWheel.trace w.
Proof.
  intros w pc ns Hc Hopen Hempty Hroom.
  eexists. split.
  - rewrite wheel_run_app, wheel_turned_all by (rewrite ?Hempty; cbn; lia || assumption).
    rewrite wheel_takes_turns; [reflexivity|assumption|].
    cbn. now rewrite Hempty.
  - cbn. rewrite loop_run_turns. cbn. repeat split.
Qed.

Lemma reported_turns_all_reach_the_accumulator_witness :
  exists w',
    VFOWheel.run (wheel_with_backlog 0, VFOWheel.AtSelect)
      (map VFOWheel.DoTurned [3; 2; -1]
         ++ repeat (VFOWheel.DoIterate VFOWheel.CaseTurns) 3)
      = Some (w', VFOWheel.AtSelect) /\
    Loop.accumulatedTurns (VFOWheel.loop w') = 4.
Proof.
  destruct (reported_turns_all_reach_the_accumulator (V := int_VFO)
              (wheel_with_backlog 0) VFOWheel.AtSelect [3; 2; -1]
              eq_refl eq_refl eq_refl) as (w' & Hrun & _ & Hacc & _).
  - cbn. lia.
  - exists w'. split; [exact Hrun | exact Hacc].
Defined.

(** X10: [Close] lets the goroutine take every turn still queued: in the
  schedule where the caller closes the queue and the goroutine then empties
  it, the caller returns, the queued turns have all been added to
  [accumulatedTurns], and none of them has been sent to the controller. *)
Theorem close_accumulates_queued_turns_without_dispatch {V : VFOType} :
  forall w : VFOWheel.t,
    VFOWheel.closed w = false ->
    Chan.closed (VFOWheel.turns w) = false ->
    exists w',
      VFOWheel.run (w, VFOWheel.AtSelect)
        (VFOWheel.DoClose
           :: repeat (VFOWheel.DoIterate VFOWheel.CaseTurns)
                (length (Chan.buf (VFOWheel.turns w)))
           ++ [VFOWheel.DoIterate VFOWheel.CaseTurns; VFOWheel.DoClose])
        = Some (w', VFOWheel.Returned) /\
      VFOWheel.closed w' = true /\
      Chan.buf (VFOWheel.turns w') = [] /\
      Loop.accumulatedTurns (VFOWheel.loop w')
        = fold_left GoInt.add (Chan.buf (VFOWheel.turns w))
            (Loop.accumulatedTurns (VFOWheel.loop w)) /\
      VFOWheel.trace w' = VFOWheel.trace w.
Proof.
  intros w Hc Hopen. eexists. split.
  - cbn [VFOWheel.run VFOWheel.act VFOWheel.Close]. unfold Chan.close.
    rewrite Hc, Hopen, wheel_run_app.
    rewrite wheel_takes_turns; [|assumption|reflexivity].
    cbn. reflexivity.
  - cbn. rewrite loop_run_turns. cbn. repeat split.
Qed.

Lemma close_accumulates_queued_turns_without_dispatch_witness :
  exists w',
    VFOWheel.run (wheel_with_backlog 3, VFOWheel.AtSelect)
      (VFOWheel.DoClose
         :: repeat (VFOWheel.DoIterate VFOWheel.CaseTurns) 3
         ++ [VFOWheel.DoIterate VFOWheel.CaseTurns; VFOWheel.DoClose])
      = Some (w', VFOWheel.Returned) /\
    Loop.accumulatedTurns (VFOWheel.loop w') = 3 /\
    VFOWheel.trace w' = [].
Proof.
  destruct (close_accumulates_queued_turns_without_dispatch (V := int_VFO)
              (wheel_with_backlog 3) eq_refl eq_refl)
    as (w' & Hrun & _ & _ & Hacc & Htrace).
  exists w'. split; [exact Hrun|]. split; [exact Hacc | exact Htrace].
Defined.

(** ** The wheel: dispatch *)

Lemma count_calls_app {V : VFOType} (o1 o2 : list Loop.effect) :
  count_calls (o1 ++ o2) = (count_calls o1 + count_calls o2)%nat.
Proof. unfold count_calls. now rewrite filter_app, length_app. Qed.

(** X5: the wheel sends at most one command per tick: over every sequence of
  events, from every state, the calls of [SetVFOFrequency] are never more
  than the ticks, and a sequence without ticks makes no effect at all. *)
Theorem wheel_calls_at_most_once_per_tick {V : VFOType} :
  forall (trx : Z) (vfo : VFO) (es : list Loop.event) (s : Loop.t),
    (count_calls (snd (Loop.run trx vfo s es)) <= count_ticks es)%nat /\
    (count_ticks es = 0%nat -> snd (Loop.run trx vfo s es) = []).
Proof.
  intros trx vfo es. induction es as [|e es IH]; intros s.
  - cbn. auto.
  - cbn [Loop.run].
    destruct (Loop.step trx vfo s e) as [s1 o1] eqn:Hstep.
    destruct (IH s1) as [Hle Hnone].
    destruct (Loop.run trx vfo s1 es) as [s2 o2]. cbn [fst snd] in *.
    rewrite count_calls_app.
    destruct e as [n|f|err].
    + cbn in Hstep. injection Hstep as <- <-.
      change (count_ticks (Loop.Turns n :: es)) with (count_ticks es).
      split; [exact Hle | exact Hnone].
    + cbn in Hstep. injection Hstep as <- <-.
      change (count_ticks (Loop.Frequency f :: es)) with (count_ticks es).
      split; [exact Hle | exact Hnone].
    + change (count_ticks (Loop.Tick err :: es)) with (S (count_ticks es)).
      split; [|discriminate].
      assert (count_calls o1 <= 1)%nat; [|lia].
      unfold Loop.step in Hstep.
      destruct (Loop.accumulatedTurns s =? 0); [injection Hstep as <- <-; cbn; lia|].
      destruct (Loop.frequency s =? 0); cbn in Hstep; injection Hstep as <- <-.
      * cbn; lia.
      * destruct err; cbn; lia.
Qed.

Lemma wheel_calls_at_most_once_per_tick_witness :
  snd (Loop.run (V := int_VFO) 1 0 (Loop.mk 0 false 14250000)
         [Loop.Turns 3; Loop.Frequency 14250100; Loop.Turns 2]) = [].
Proof.
  apply (proj2 (wheel_calls_at_most_once_per_tick (V := int_VFO) 1 0
                  [Loop.Turns 3; Loop.Frequency 14250100; Loop.Turns 2]
                  (Loop.mk 0 false 14250000))).
  reflexivity.
Defined.

(** X6: motion before the first feedback is applied to the first baseline.
  From the start of the goroutine, after turns and ticks with a nonzero total
  (below 2^50 in size), the first baseline report [f <> 0] is accepted and
  the next tick dispatches [f] plus the total times 1.8, fraction cut off,
  and resets the pending turns. *)
Theorem early_turns_apply_to_first_baseline {V : VFOType} :
  forall (trx : Z) (vfo : VFO) (es : list Loop.event) (f : Z) (err : bool),
    forallb (fun e => negb (is_baseline e)) es = true ->
    f <> 0 ->
    let total := fold_left GoInt.add (turn_deltas es) 0 in
    total <> 0 ->
    Z.abs total < 2 ^ 50 ->
    let d := GoInt.add f (Z.quot (9 * total) 5) in
    Loop.run trx vfo Loop.init (es ++ [Loop.Frequency f; Loop.Tick err])
      = (Loop.mk 0 false d,
         Loop.CallSetVFOFrequency trx vfo d :: (if err then [Loop.LogPrintf] else [])).
Proof.
  intros trx vfo es f err Hes Hf total Htotal Hsmall d.
  destruct (run_without_baseline trx vfo es Loop.init Hes eq_refl eq_refl)
    as (Hout & Hfreq & Hturning & Hacc).
  rewrite loop_run_app, Hout.
  destruct (Loop.run trx vfo Loop.init es) as [s out]. cbn [fst snd] in *.
  cbn [Loop.accumulatedTurns Loop.init] in Hacc. fold total in Hacc.
  destruct s as [acc t fr]. cbn [Loop.accumulatedTurns Loop.turning Loop.frequency] in *.
  subst acc t fr. unfold Loop.run, Loop.step.
  cbn [Loop.accumulatedTurns Loop.turning Loop.frequency app fst snd].
  destruct (Z.eqb_spec total 0) as [|_]; [contradiction|].
  destruct (Z.eqb_spec f 0) as [|_]; [contradiction|].
  cbn [negb andb fst snd app]. rewrite scaled_quot, app_nil_r by assumption. reflexivity.
Qed.

Lemma early_turns_apply_to_first_baseline_witness :
  Loop.run (V := int_VFO) 1 0 Loop.init
    ([Loop.Turns 3; Loop.Tick false; Loop.Turns 2]
       ++ [Loop.Frequency 14250000; Loop.Tick false])
    = (Loop.mk 0 false 14250009, [Loop.CallSetVFOFrequency 1 0 14250009]).
Proof.
  apply (early_turns_apply_to_first_baseline (V := int_VFO) 1 0
           [Loop.Turns 3; Loop.Tick false; Loop.Turns 2] 14250000 false);
    [reflexivity | discriminate | discriminate | reflexivity].
Defined.

(** X7: feedback is held off until the wheel has rested for a tick.  With a
  positive baseline and nothing pending, after a turn and the tick that
  dispatches it a baseline report is still discarded, the wheel keeping the
  value it dispatched; only after a further tick without pending turns is a
  report accepted. *)
Theorem feedback_is_held_off_until_an_idle_tick {V : VFOType} :
  forall (trx : Z) (vfo : VFO) (s : Loop.t) (n f : Z) (e1 e2 : bool),
    0 < Loop.frequency s ->
    Loop.accumulatedTurns s = 0 ->
    n <> 0 ->
    Z.abs n < 2 ^ 50 ->
    let d := GoInt.add (Loop.frequency s) (Z.quot (9 * n) 5) in
    Loop.run trx vfo s [Loop.Turns n; Loop.Tick e1; Loop.Frequency f]
      = (Loop.mk 0 true d,
         Loop.CallSetVFOFrequency trx vfo d :: (if e1 then [Loop.LogPrintf] else [])) /\
    Loop.run trx vfo s [Loop.Turns n; Loop.Tick e1; Loop.Tick e2; Loop.Frequency f]
      = (Loop.mk 0 false f,
         Loop.CallSetVFOFrequency trx vfo d :: (if e1 then [Loop.LogPrintf] else [])).
Proof.
  intros trx vfo s n f e1 e2 Hpos Hacc Hn Hsmall d.
  destruct s as [acc t fr]. cbn [Loop.accumulatedTurns Loop.frequency] in *. subst acc.
  assert (Hadd : GoInt.add 0 n = n).
  { apply add_in_range. unfold GoInt.in_range, GoInt.min_int, GoInt.max_int.
    assert (2 ^ 50 < 2 ^ 63) by (apply Z.pow_lt_mono_r; lia). lia. }
  assert (Hfr : (0 <? fr) = true) by (apply Z.ltb_lt; assumption).
  unfold Loop.run, Loop.step.
  cbn [Loop.accumulatedTurns Loop.frequency Loop.turning].
  rewrite Hadd, Hfr.
  destruct (Z.eqb_spec n 0) as [|_]; [contradiction|].
  destruct (Z.eqb_spec fr 0) as [|_]; [lia|].
  cbn [negb andb Loop.accumulatedTurns Loop.frequency Loop.turning].
  rewrite scaled_quot by assumption. fold d.
  cbn [Z.eqb Loop.accumulatedTurns Loop.frequency Loop.turning app].
  rewrite !app_nil_r. split; reflexivity.
Qed.

Lemma feedback_is_held_off_until_an_idle_tick_witness :
  fst (Loop.run (V := int_VFO) 1 0 (Loop.mk 0 false 14250000)
         [Loop.Turns 5; Loop.Tick false; Loop.Frequency 14250010])
    = Loop.mk 0 true 14250009 /\
  fst (Loop.run (V := int_VFO) 1 0 (Loop.mk 0 false 14250000)
         [Loop.Turns 5; Loop.Tick false; Loop.Tick false; Loop.Frequency 14250010])
    = Loop.mk 0 false 14250010.
Proof.
  destruct (feedback_is_held_off_until_an_idle_tick (V := int_VFO) 1 0
              (Loop.mk 0 false 14250000) 5 14250010 false false)
    as [H1 H2]; [reflexivity | reflexivity | discriminate | reflexivity |].
  split; [now rewrite H1 | now rewrite H2].
Defined.

(** ** The wheel: after Close *)

Lemma wheel_deliver_frame {V : VFOType} (w : VFOWheel.t) (e : Loop.event) :
  VFOWheel.closed (VFOWheel.deliver w e) = VFOWheel.closed w /\
  VFOWheel.turns (VFOWheel.deliver w e) = VFOWheel.turns w /\
  VFOWheel.frequency (VFOWheel.deliver w e) = VFOWheel.frequency w.
Proof.
  unfold VFOWheel.deliver. destruct (Loop.step _ _ _ _) as [s out]. cbn. auto.
Qed.

(** Until a caller of [Close] has closed the queue of turns, the caller is
  at its [select] and the goroutine is running; the queue never reopens. *)
Lemma wheel_act_queue_closed {V : VFOType}
    (w w' : VFOWheel.t) (pc pc' : VFOWheel.close_pc) (a : VFOWheel.action) :
  VFOWheel.act (w, pc) a = Some (w', pc') ->
  Chan.closed (VFOWheel.turns w) = true \/
    (pc = VFOWheel.AtSelect /\ VFOWheel.closed w = false) ->
  Chan.closed (VFOWheel.turns w') = true \/
    (pc' = VFOWheel.AtSelect /\ VFOWheel.closed w' = false).
Proof.
  intros Hact Hinv. destruct a as [c| |n|trx' vfo' f]; cbn in Hact.
  - unfold VFOWheel.iterate in Hact.
    destruct (VFOWheel.closed w) eqn:Hc; [discriminate|].
    destruct c as [| |err].
    + unfold Chan.recv in Hact. destruct (Chan.buf (VFOWheel.turns w)) as [|v rest].
      * destruct (Chan.closed (VFOWheel.turns w)) eqn:Hq; [|discriminate].
        injection Hact as <- <-. left. exact Hq.
      * injection Hact as <- <-.
        destruct (wheel_deliver_frame
                    (VFOWheel.with_turns w
                       (Chan.mk rest (Chan.cap (VFOWheel.turns w))
                          (Chan.closed (VFOWheel.turns w)))) (Loop.Turns v))
          as (Hfc & Hft & _).
        rewrite Hfc, Hft. cbn. destruct Hinv as [Hq|[Hp _]]; [left|right]; auto.
    + assert (Hsame : forall w1, option_map (fun w' => (w', pc)) (Some w1) = Some (w', pc') ->
                VFOWheel.closed w1 = false -> VFOWheel.turns w1 = VFOWheel.turns w ->
                Chan.closed (VFOWheel.turns w') = true \/
                (pc' = VFOWheel.AtSelect /\ VFOWheel.closed w' = false)).
      { intros w1 H1 Hc1 Ht1. cbn in H1. injection H1 as <- <-. rewrite Hc1, Ht1.
        destruct Hinv as [Hq|[Hp _]]; [left|right]; auto. }
      unfold Chan.recv in Hact. destruct (Chan.buf (VFOWheel.frequency w)) as [|v rest].
      * destruct (Chan.closed (VFOWheel.frequency w)); [|discriminate].
        destruct (wheel_deliver_frame w (Loop.Frequency 0)) as (Hfc & Hft & _).
        apply (Hsame _ Hact); [now rewrite Hfc | exact Hft].
      * destruct (wheel_deliver_frame
                    (VFOWheel.with_frequency w
                       (Chan.mk rest (Chan.cap (VFOWheel.frequency w))
                          (Chan.closed (VFOWheel.frequency w)))) (Loop.Frequency v))
          as (Hfc & Hft & _).
        apply (Hsame _ Hact); [now rewrite Hfc | exact Hft].
    + destruct (wheel_deliver_frame w (Loop.Tick err)) as (Hfc & Hft & _).
      cbn in Hact. injection Hact as <- <-. rewrite Hfc, Hft.
      destruct Hinv as [Hq|[Hp _]]; [left|right]; auto.
  - destruct pc; cbn in Hact; try discriminate.
    + destruct (VFOWheel.closed w) eqn:Hc.
      * injection Hact as <- <-. destruct Hinv as [Hq|[_ Hc']]; [left; auto|congruence].
      * unfold Chan.close in Hact. destruct (Chan.closed (VFOWheel.turns w)) eqn:Hq;
          injection Hact as <- <-; left; [exact Hq|reflexivity].
    + destruct (VFOWheel.closed w) eqn:Hc; [|discriminate].
      injection Hact as <- <-. destruct Hinv as [Hq|[Hp _]]; [left; auto|discriminate].
  - unfold VFOWheel.Turned, Chan.send in Hact.
    destruct (Chan.closed (VFOWheel.turns w)) eqn:Hq; [discriminate|].
    destruct (length (Chan.buf (VFOWheel.turns w)) <? Chan.cap (VFOWheel.turns w))%nat;
      [|discriminate].
    injection Hact as <- <-. cbn. destruct Hinv as [Hq'|Hp]; [discriminate|right; exact Hp].
  - unfold VFOWheel.SetVFOFrequency in Hact.
    destruct (negb (trx' =? VFOWheel.trx w) || negb (VFO_eqb vfo' (VFOWheel.vfo w))).
    + injection Hact as <- <-. exact Hinv.
    + destruct (Chan.send (VFOWheel.frequency w) f); try discriminate.
      injection Hact as <- <-. cbn. exact Hinv.
Qed.

Lemma wheel_run_queue_closed {V : VFOType} (acts : list VFOWheel.action) :
  forall (w w' : VFOWheel.t) (pc pc' : VFOWheel.close_pc),
    VFOWheel.run (w, pc) acts = Some (w', pc') ->
    Chan.closed (VFOWheel.turns w) = true \/
      (pc = VFOWheel.AtSelect /\ VFOWheel.closed w = false) ->
    Chan.closed (VFOWheel.turns w') = true \/
      (pc' = VFOWheel.AtSelect /\ VFOWheel.closed w' = false).
Proof.
  induction acts as [|a acts IH]; intros w w' pc pc' Hrun Hinv.
  - cbn in Hrun. injection Hrun as <- <-. exact Hinv.
  - cbn [VFOWheel.run] in Hrun.
    destruct (VFOWheel.act (w, pc) a) as [[w1 pc1]|] eqn:Hact; [|discriminate].
    exact (IH _ _ _ _ Hrun (wheel_act_queue_closed _ _ _ _ _ Hact Hinv)).
Qed.

(** X8: a wheel must not be turned after [Close].  When [Close] was called
  on a running wheel and has returned, under every schedule, the queue of
  turns is closed and every later call of [Turned] panics. *)
Theorem turned_after_close_panics {V : VFOType} :
  forall (w w1 : VFOWheel.t) (acts : list VFOWheel.action) (n : Z),
    VFOWheel.closed w = false ->
    VFOWheel.run (w, VFOWheel.AtSelect) acts = Some (w1, VFOWheel.Returned) ->
    VFOWheel.Turned w1 n = Panics.
Proof.
  intros w w1 acts n Hc Hrun.
  destruct (wheel_run_queue_closed acts _ _ _ _ Hrun) as [Hq|[Hp _]];
    [right; auto| |discriminate].
  unfold VFOWheel.Turned, Chan.send. now rewrite Hq.
Qed.

Lemma turned_after_close_panics_witness :
  VFOWheel.Turned
    (VFOWheel.mk int_VFO (Build_MidiKey x00 x01) 0 0
       (Chan.mk [] 1000 false) (Chan.mk [] 1000 true) true (Loop.mk 2 false 0) [])
    1 = Panics.
Proof.
  apply (turned_after_close_panics (V := int_VFO) (wheel_with_backlog 2) _
           [VFOWheel.DoClose; VFOWheel.DoIterate VFOWheel.CaseTurns;
            VFOWheel.DoIterate (VFOWheel.CaseTick false);
            VFOWheel.DoIterate VFOWheel.CaseTurns;
            VFOWheel.DoIterate VFOWheel.CaseTurns; VFOWheel.DoClose] 1);
    reflexivity.
Defined.

Lemma wheel_feedback_all {V : VFOType} (pc : VFOWheel.close_pc) (f : Z) (k : nat) :
  forall w : VFOWheel.t,
    Chan.closed (VFOWheel.frequency w) = false ->
    (length (Chan.buf (VFOWheel.frequency w)) + k <= Chan.cap (VFOWheel.frequency w))%nat ->
    VFOWheel.run (w, pc)
      (repeat (VFOWheel.DoSetVFOFrequency (VFOWheel.trx w) (VFOWheel.vfo w) f) k)
      = Some (VFOWheel.with_frequency w
                (Chan.mk (Chan.buf (VFOWheel.frequency w) ++ repeat f k)
                   (Chan.cap (VFOWheel.frequency w)) false), pc).
Proof.
  induction k as [|k IH]; intros w Hopen Hroom.
  - cbn. rewrite app_nil_r. destruct w as [ky t v [b c cl] tu x l tr]. cbn in *. now subst cl.
  - cbn [repeat VFOWheel.run VFOWheel.act]. unfold VFOWheel.SetVFOFrequency, Chan.send.
    rewrite Z.eqb_refl, (proj2 (VFO_eqb_eq _ _) eq_refl), Hopen. cbn [negb orb].
    assert (Hlt : (length (Chan.buf (VFOWheel.frequency w))
                   <? Chan.cap (VFOWheel.frequency w))%nat = true)
      by (apply Nat.ltb_lt; lia).
    rewrite Hlt.
    change (VFOWheel.trx w) with
      (VFOWheel.trx (VFOWheel.with_frequency w
                       (Chan.mk (Chan.buf (VFOWheel.frequency w) ++ [f])
                          (Chan.cap (VFOWheel.frequency w)) false))) at 1.
    change (VFOWheel.vfo w) with
      (VFOWheel.vfo (VFOWheel.with_frequency w
                       (Chan.mk (Chan.buf (VFOWheel.frequency w) ++ [f])
                          (Chan.cap (VFOWheel.frequency w)) false))) at 1.
    rewrite IH.
    + cbn. now rewrite <- app_assoc.
    + reflexivity.
    + cbn. rewrite length_app. cbn. lia.
Qed.

(** X9: feedback keeps being queued on a wheel whose goroutine has
  returned, and is never handled.  With the feedback queue empty, as many
  matching reports as the queue holds are accepted without any of them
  reaching the loop; the next one blocks its caller, and no iteration of the
  goroutine is left to make room. *)
Theorem feedback_after_close_piles_up {V : VFOType} :
  forall (w : VFOWheel.t) (pc : VFOWheel.close_pc) (f : Z),
    VFOWheel.closed w = true ->
    Chan.closed (VFOWheel.frequency w) = false ->
    Chan.buf (VFOWheel.frequency w) = [] ->
    exists w',
      VFOWheel.run (w, pc)
        (repeat (VFOWheel.DoSetVFOFrequency (VFOWheel.trx w) (VFOWheel.vfo w) f)
           (Chan.cap (VFOWheel.frequency w)))
        = Some (w', pc) /\
      VFOWheel.loop w' = VFOWheel.loop w /\
      VFOWheel.trace w' = VFOWheel.trace w /\
      VFOWheel.SetVFOFrequency w' (VFOWheel.trx w) (VFOWheel.vfo w) f = Blocks /\
      (forall c, VFOWheel.iterate w' c = None).
Proof.
  intros w pc f Hc Hopen Hempty. eexists. split.
  - apply wheel_feedback_all; [assumption|]. rewrite Hempty. cbn. lia.
  - cbn. repeat split.
    + unfold VFOWheel.SetVFOFrequency, Chan.send.
      cbn [VFOWheel.trx VFOWheel.vfo VFOWheel.frequency VFOWheel.with_frequency
             Chan.closed Chan.buf Chan.cap].
      rewrite Z.eqb_refl, (proj2 (VFO_eqb_eq _ _) eq_refl). cbn [negb orb].
      rewrite Hempty.
      assert (Hfull : (length ([] ++ repeat f (Chan.cap (VFOWheel.frequency w)))
                       <? Chan.cap (VFOWheel.frequency w))%nat = false)
        by (apply Nat.ltb_ge; cbn [app]; rewrite repeat_length; lia).
      now rewrite Hfull.
    + intros c. apply wheel_no_iteration_after_exit. cbn. exact Hc.
Qed.

Lemma feedback_after_close_piles_up_witness :
  let w := VFOWheel.mk int_VFO (Build_MidiKey x00 x01) 0 0
             (Chan.mk [] 1000 false) (Chan.mk [] 1000 true) true (Loop.mk 2 false 0) [] in
  exists w',
    VFOWheel.run (w, VFOWheel.Returned)
      (repeat (VFOWheel.DoSetVFOFrequency 0 0 14250000) 1000) = Some (w', VFOWheel.Returned) /\
    VFOWheel.SetVFOFrequency w' 0 0 14250000 = Blocks.
Proof.
  intros w.
  destruct (feedback_after_close_piles_up (V := int_VFO) w VFOWheel.Returned 14250000
              eq_refl eq_refl eq_refl) as (w' & Hrun & _ & _ & Hblocks & _).
  exists w'. split; [exact Hrun | exact Hblocks].
Defined.

(** ** The slider: what is sent, and when *)

Lemma after_app (s : Slider.t) (h1 h2 : list Slider.happening) :
  Slider.after s (h1 ++ h2) = Slider.after (Slider.after s h1) h2.
Proof. unfold Slider.after. apply fold_left_app. Qed.

(** One happening keeps this: the selected value is a submitted target, or
  it is the active value with nothing pending; and a call carries a
  submitted target. *)
Lemma happen_sends_targets (s : Slider.t) (h : Slider.happening) (T : list Z) :
  In (Slider.Loop.selectedValue (Slider.loop s)) T \/
    (Slider.Loop.selectedValue (Slider.loop s) = Slider.Loop.activeValue (Slider.loop s) /\
     Slider.Loop.pending (Slider.loop s) = false) ->
  let s' := Slider.happen s h in
  (exists new, Slider.calls s' = Slider.calls s ++ new /\
               forall v, In v new -> In v (T ++ targets [h])) /\
  (In (Slider.Loop.selectedValue (Slider.loop s')) (T ++ targets [h]) \/
     (Slider.Loop.selectedValue (Slider.loop s') = Slider.Loop.activeValue (Slider.loop s') /\
      Slider.Loop.pending (Slider.loop s') = false)).
Proof.
  intros Hinv. destruct h as [[value|v|]|].
  - (* active report *)
    cbn. rewrite app_nil_r. split.
    + exists []. rewrite app_nil_r. split; [reflexivity|intros ? []].
    + destruct (Slider.Loop.pending (Slider.loop s)) eqn:Hp.
      * destruct Hinv as [Hin|[_ Hf]]; [left; exact Hin|discriminate].
      * right. auto.
  - (* target report *)
    change (targets [Slider.Handled (Slider.Loop.Selected v)]) with [v].
    destruct (target_report_step s v) as (Hs & _ & Hcase). cbn zeta in *.
    change (Slider.happen s (Slider.Handled (Slider.Loop.Selected v)))
      with (Slider.handle s (Slider.Loop.Selected v)).
    split.
    + destruct Hcase as [(_ & _ & Hc & _)|(_ & Hc & _)]; rewrite Hc.
      * exists [v]. split; [reflexivity|]. intros x [<-|[]]. apply in_or_app. right. now left.
      * exists []. rewrite app_nil_r. split; [reflexivity|intros ? []].
    + left. rewrite Hs. apply in_or_app. right. now left.
  - (* tick *)
    change (targets [Slider.Handled Slider.Loop.Tick]) with (@nil Z). rewrite app_nil_r.
    change (Slider.happen s (Slider.Handled Slider.Loop.Tick))
      with (Slider.handle s Slider.Loop.Tick).
    unfold Slider.handle, Slider.Loop.step, Slider.Loop.try_send.
    destruct (Z.eqb_spec (Slider.Loop.activeValue (Slider.loop s))
                (Slider.Loop.selectedValue (Slider.loop s))) as [Heq|Hne].
    + cbn. split.
      * exists []. rewrite app_nil_r. split; [reflexivity|intros ? []].
      * right. split; [symmetry; exact Heq | reflexivity].
    + assert (Hin : In (Slider.Loop.selectedValue (Slider.loop s)) T)
        by (destruct Hinv as [Hin|[Heq _]]; [exact Hin|congruence]).
      destruct (Slider.exec s); cbn; split; try (left; exact Hin).
      * exists [Slider.Loop.selectedValue (Slider.loop s)].
        split; [reflexivity|]. now intros x [<-|[]].
      * exists []. rewrite app_nil_r. split; [reflexivity|intros ? []].
      * exists []. rewrite app_nil_r. split; [reflexivity|intros ? []].
  - (* the executor comes back *)
    change (targets [Slider.ExecutorArrived]) with (@nil Z). rewrite app_nil_r.
    destruct (executor_arrival_frame s) as (Hl & Hc). cbn zeta in *.
    rewrite Hl, Hc. split; [|exact Hinv].
    exists []. rewrite app_nil_r. split; [reflexivity|intros ? []].
Qed.

Lemma after_sends_targets (hs : list Slider.happening) :
  forall (s : Slider.t) (T : list Z),
    In (Slider.Loop.selectedValue (Slider.loop s)) T \/
      (Slider.Loop.selectedValue (Slider.loop s) = Slider.Loop.activeValue (Slider.loop s) /\
       Slider.Loop.pending (Slider.loop s) = false) ->
    exists new, Slider.calls (Slider.after s hs) = Slider.calls s ++ new /\
                forall v, In v new -> In v (T ++ targets hs).
Proof.
  induction hs as [|h hs IH]; intros s T Hinv.
  - exists []. cbn. rewrite app_nil_r. split; [reflexivity|intros ? []].
  - change (Slider.after s (h :: hs)) with (Slider.after (Slider.happen s h) hs).
    destruct (happen_sends_targets s h T Hinv) as [(new1 & Hc1 & Hin1) Hinv1].
    destruct (IH (Slider.happen s h) (T ++ targets [h]) Hinv1) as (new2 & Hc2 & Hin2).
    assert (Htargets : targets (h :: hs) = targets [h] ++ targets hs).
    { unfold targets. change (h :: hs) with ([h] ++ hs). now rewrite flat_map_app. }
    exists (new1 ++ new2). rewrite Hc2, Hc1, <- app_assoc. split; [reflexivity|].
    intros v Hv. rewrite Htargets, app_assoc.
    apply in_app_or in Hv as [Hv|Hv]; [apply in_or_app; left; now apply Hin1|now apply Hin2].
Qed.

(** X11: the slider never sends the controller's own feedback back to it.
  Starting with the selected value equal to the active value and nothing
  pending (as a new slider does), whatever targets, active reports, ticks and
  returns of the executor follow, every value handed to [set] is a target
  that was submitted. *)
Theorem slider_sends_only_submitted_targets :
  forall (s : Slider.t) (hs : list Slider.happening),
    Slider.Loop.selectedValue (Slider.loop s) = Slider.Loop.activeValue (Slider.loop s) ->
    Slider.Loop.pending (Slider.loop s) = false ->
    exists new, Slider.calls (Slider.after s hs) = Slider.calls s ++ new /\
                forall v, In v new -> In v (targets hs).
Proof.
  intros s hs Heq Hp.
  destruct (after_sends_targets hs s [] (or_intror (conj Heq Hp))) as (new & Hc & Hin).
  exists new. split; [exact Hc | exact Hin].
Qed.

Lemma slider_sends_only_submitted_targets_witness :
  let hs := [Slider.Handled (Slider.Loop.Active (-20)); Slider.ExecutorArrived;
             Slider.Handled (Slider.Loop.Selected (-10));
             Slider.Handled (Slider.Loop.Active (-15)); Slider.ExecutorArrived;
             Slider.Handled Slider.Loop.Tick] in
  exists new,
    Slider.calls (Slider.after VolumeSlider.NewVolumeSlider hs) = [] ++ new /\
    forall v, In v new -> In v (targets hs).
Proof.
  intros hs.
  exact (slider_sends_only_submitted_targets VolumeSlider.NewVolumeSlider hs eq_refl eq_refl).
Defined.

(** One round: the executor comes back and the tick hands the selected value
  over again. *)
Lemma retry_round (s : Slider.t) :
  Slider.Loop.activeValue (Slider.loop s) <> Slider.Loop.selectedValue (Slider.loop s) ->
  Slider.exec s <> Slider.ExecReturned ->
  let s' := Slider.after s [Slider.ExecutorArrived; Slider.Handled Slider.Loop.Tick] in
  Slider.calls s' = Slider.calls s ++ [Slider.Loop.selectedValue (Slider.loop s)] /\
  Slider.Loop.activeValue (Slider.loop s') = Slider.Loop.activeValue (Slider.loop s) /\
  Slider.Loop.selectedValue (Slider.loop s') = Slider.Loop.selectedValue (Slider.loop s) /\
  Slider.Loop.pending (Slider.loop s') = false /\
  Slider.exec s' = Slider.ExecBusy.
Proof.
  intros Hne Hx. apply Z.eqb_neq in Hne.
  unfold Slider.after. cbn [fold_left Slider.happen].
  unfold Slider.executor_arrives, Slider.handle, Slider.Loop.step, Slider.Loop.try_send.
  destruct (Slider.exec s) eqn:He; [| |contradiction];
    cbn [Slider.exec Slider.loop Slider.with_exec Slider.waiting]; rewrite Hne, ?He;
    cbn; repeat split.
Qed.

(** X12: a target is sent again at every tick until feedback confirms it.
  While the active value differs from the selected one, each round of the
  executor coming back to its [select] and a tick makes one more call of
  [set] with the same selected value. *)
Theorem unconfirmed_target_is_resent_every_tick :
  forall (k : nat) (s : Slider.t),
    Slider.Loop.activeValue (Slider.loop s) <> Slider.Loop.selectedValue (Slider.loop s) ->
    Slider.exec s <> Slider.ExecReturned ->
    Slider.calls (Slider.after s (retry_rounds k))
      = Slider.calls s ++ repeat (Slider.Loop.selectedValue (Slider.loop s)) k.
Proof.
  induction k as [|k IH]; intros s Hne Hx.
  - cbn. now rewrite app_nil_r.
  - unfold retry_rounds. cbn [repeat concat]. fold (retry_rounds k).
    rewrite after_app.
    destruct (retry_round s Hne Hx) as (Hc & Ha & Hs & _ & He). cbn zeta in *.
    rewrite IH; [|rewrite Ha, Hs; exact Hne|rewrite He; discriminate].
    rewrite Hc, Hs, <- app_assoc. reflexivity.
Qed.

Lemma unconfirmed_target_is_resent_every_tick_witness :
  let s := Slider.after VolumeSlider.NewVolumeSlider
             [Slider.ExecutorArrived; Slider.Handled (Slider.Loop.Selected (-10))] in
  Slider.calls (Slider.after s (retry_rounds 3)) = [-10] ++ repeat (-10) 3.
Proof.
  intros s.
  apply (unconfirmed_target_is_resent_every_tick 3 s); discriminate.
Defined.

(** While the executor is busy a target report only records the target. *)
Lemma busy_target_step (s : Slider.t) (v : Z) :
  Slider.exec s = Slider.ExecBusy ->
  let s' := Slider.handle s (Slider.Loop.Selected v) in
  Slider.exec s' = Slider.ExecBusy /\
  Slider.calls s' = Slider.calls s /\
  Slider.Loop.activeValue (Slider.loop s') = Slider.Loop.activeValue (Slider.loop s) /\
  Slider.Loop.selectedValue (Slider.loop s') = v /\
  (v <> Slider.Loop.activeValue (Slider.loop s) -> Slider.Loop.pending (Slider.loop s') = true).
Proof.
  intros Hx. unfold Slider.handle, Slider.Loop.step, Slider.Loop.try_send. rewrite Hx.
  destruct (Z.eqb_spec (Slider.Loop.activeValue (Slider.loop s)) v) as [Heq|Hne]; cbn;
    repeat split; try assumption. congruence.
Qed.

Lemma busy_window (vs : list Z) :
  forall s : Slider.t,
    Slider.exec s = Slider.ExecBusy ->
    let s' := Slider.after s (map (fun v => Slider.Handled (Slider.Loop.Selected v)) vs) in
    Slider.exec s' = Slider.ExecBusy /\
    Slider.calls s' = Slider.calls s /\
    Slider.Loop.activeValue (Slider.loop s') = Slider.Loop.activeValue (Slider.loop s) /\
    Slider.Loop.selectedValue (Slider.loop s')
      = last vs (Slider.Loop.selectedValue (Slider.loop s)) /\
    (vs <> [] ->
     last vs 0 <> Slider.Loop.activeValue (Slider.loop s) ->
     Slider.Loop.pending (Slider.loop s') = true).
Proof.
  induction vs as [|v vs IH]; intros s Hx.
  - cbn. repeat split; try assumption. congruence.
  - cbn [map]. change (Slider.after s (?h :: ?hs)) with (Slider.after (Slider.happen s h) hs).
    change (Slider.happen s (Slider.Handled (Slider.Loop.Selected v)))
      with (Slider.handle s (Slider.Loop.Selected v)).
    destruct (busy_target_step s v Hx) as (Hx1 & Hc1 & Ha1 & Hs1 & Hp1). cbn zeta in *.
    destruct (IH _ Hx1) as (Hx2 & Hc2 & Ha2 & Hs2 & Hp2). cbn zeta in *.
    rewrite Hx2, Hc2, Ha2, Hs2, Hc1, Ha1, Hs1, !last_cons. repeat split.
    intros _ Hlast. destruct vs as [|v' vs'].
    + cbn in *. now apply Hp1.
    + apply Hp2; [discriminate|]. rewrite Ha1. now rewrite last_cons in *.
Qed.

(** X13: a burst that arrives while [set] is still running collapses to its
  last value.  With the executor busy, any number of targets make no call;
  the selected value ends as the last of them, and if that differs from the
  active value the target is left pending and the first tick after the
  executor has come back makes exactly one call, carrying that last value,
  and clears the pending flag. *)
Theorem burst_behind_a_busy_executor_collapses :
  forall (s : Slider.t) (vs : list Z),
    Slider.exec s = Slider.ExecBusy ->
    vs <> [] ->
    last vs 0 <> Slider.Loop.activeValue (Slider.loop s) ->
    let s1 := Slider.after s (map (fun v => Slider.Handled (Slider.Loop.Selected v)) vs) in
    let s2 := Slider.after s1 [Slider.ExecutorArrived; Slider.Handled Slider.Loop.Tick] in
    Slider.calls s1 = Slider.calls s /\
    Slider.Loop.pending (Slider.loop s1) = true /\
    Slider.calls s2 = Slider.calls s ++ [last vs 0] /\
    Slider.Loop.pending (Slider.loop s2) = false.
Proof.
  intros s vs Hx Hne Hlast s1 s2.
  destruct (busy_window vs s Hx) as (Hx1 & Hc1 & Ha1 & Hs1 & Hp1). fold s1 in Hx1, Hc1, Ha1, Hs1, Hp1.
  assert (Hsel : Slider.Loop.selectedValue (Slider.loop s1) = last vs 0).
  { rewrite Hs1. destruct vs as [|v l]; [contradiction|]. now rewrite !last_cons. }
  destruct (retry_round s1) as (Hc2 & _ & _ & Hp2 & _).
  { rewrite Ha1, Hsel. congruence. }
  { rewrite Hx1. discriminate. }
  fold s2 in Hc2, Hp2.
  split; [exact Hc1|]. split; [now apply Hp1|]. split; [|exact Hp2].
  now rewrite Hc2, Hc1, Hsel.
Qed.

Lemma burst_behind_a_busy_executor_collapses_witness :
  let s1 := Slider.after VolumeSlider.NewVolumeSlider
              (map (fun v => Slider.Handled (Slider.Loop.Selected v)) [-10; -20; -30]) in
  Slider.calls s1 = [] /\
  Slider.calls (Slider.after s1 [Slider.ExecutorArrived; Slider.Handled Slider.Loop.Tick])
    = [-30].
Proof.
  intros s1.
  destruct (burst_behind_a_busy_executor_collapses VolumeSlider.NewVolumeSlider
              [-10; -20; -30] eq_refl ltac:(discriminate) ltac:(discriminate))
    as (H1 & _ & H2 & _).
  split; [exact H1 | exact H2].
Defined.

(** X17: at rest nothing is sent.  When the selected value equals the active
  one, any number of ticks and returns of the executor make no call of [set]
  and keep both values. *)
Theorem slider_at_rest_sends_nothing :
  forall (hs : list Slider.happening) (s : Slider.t),
    forallb is_idle_happening hs = true ->
    Slider.Loop.activeValue (Slider.loop s) = Slider.Loop.selectedValue (Slider.loop s) ->
    Slider.calls (Slider.after s hs) = Slider.calls s /\
    Slider.Loop.activeValue (Slider.loop (Slider.after s hs))
      = Slider.Loop.activeValue (Slider.loop s) /\
    Slider.Loop.selectedValue (Slider.loop (Slider.after s hs))
      = Slider.Loop.selectedValue (Slider.loop s).
Proof.
  induction hs as [|h hs IH]; intros s Hidle Heq.
  - cbn. auto.
  - cbn [forallb] in Hidle. apply andb_prop in Hidle as [Hh Hidle].
    change (Slider.after s (h :: hs)) with (Slider.after (Slider.happen s h) hs).
    assert (Hstep : Slider.calls (Slider.happen s h) = Slider.calls s /\
                    Slider.Loop.activeValue (Slider.loop (Slider.happen s h))
                      = Slider.Loop.activeValue (Slider.loop s) /\
                    Slider.Loop.selectedValue (Slider.loop (Slider.happen s h))
                      = Slider.Loop.selectedValue (Slider.loop s)).
    { destruct h as [[value|v|]|]; cbn in Hh; try discriminate.
      - cbn [Slider.happen]. unfold Slider.handle, Slider.Loop.step.
        apply Z.eqb_eq in Heq. rewrite Heq. cbn. auto.
      - destruct (executor_arrival_frame s) as (Hl & Hc). cbn zeta in *.
        rewrite Hl, Hc. auto. }
    destruct Hstep as (Hc & Ha & Hs).
    destruct (IH (Slider.happen s h) Hidle) as (Hc' & Ha' & Hs'); [congruence|].
    rewrite Hc', Ha', Hs'. auto.
Qed.

Lemma slider_at_rest_sends_nothing_witness :
  Slider.calls
    (Slider.after VolumeSlider.NewVolumeSlider
       [Slider.ExecutorArrived; Slider.Handled Slider.Loop.Tick;
        Slider.Handled Slider.Loop.Tick]) = [].
Proof.
  apply (slider_at_rest_sends_nothing
           [Slider.ExecutorArrived; Slider.Handled Slider.Loop.Tick;
            Slider.Handled Slider.Loop.Tick] VolumeSlider.NewVolumeSlider);
    reflexivity.
Defined.

(** ** The slider: Close *)

(** An iteration never opens or closes a queue, and with both queues open
  the deciding goroutine keeps running. *)
Lemma slider_iterate_flags (s s' : Slider.t) (c : Slider.select_case) :
  Slider.iterate s c = Some s' ->
  Chan.closed (Slider.activeValue s') = Chan.closed (Slider.activeValue s) /\
  Chan.closed (Slider.selectedValue s') = Chan.closed (Slider.selectedValue s) /\
  (Chan.closed (Slider.activeValue s) = false ->
   Chan.closed (Slider.selectedValue s) = false ->
   Slider.closed s' = false).
Proof.
  unfold Slider.iterate. destruct (Slider.closed s) eqn:Hc; [discriminate|].
  destruct c.
  - unfold Chan.recv. destruct (Chan.buf (Slider.activeValue s)) as [|v rest].
    + destruct (Chan.closed (Slider.activeValue s)) eqn:Hq; [|discriminate].
      intros H. injection H as <-. cbn. repeat split; [assumption|discriminate].
    + intros H. injection H as <-.
      destruct (slider_handle_frame
                  (Slider.with_activeValue s
                     (Chan.mk rest (Chan.cap (Slider.activeValue s))
                        (Chan.closed (Slider.activeValue s)))) (Slider.Loop.Active v))
        as (Hfc & Hfa & Hfs & _).
      rewrite Hfc, Hfa, Hfs. cbn. auto.
  - unfold Chan.recv. destruct (Chan.buf (Slider.selectedValue s)) as [|v rest].
    + destruct (Chan.closed (Slider.selectedValue s)) eqn:Hq; [|discriminate].
      intros H. injection H as <-. cbn. repeat split; [assumption|discriminate].
    + intros H. injection H as <-.
      destruct (slider_handle_frame
                  (Slider.with_selectedValue s
                     (Chan.mk rest (Chan.cap (Slider.selectedValue s))
                        (Chan.closed (Slider.selectedValue s)))) (Slider.Loop.Selected v))
        as (Hfc & Hfa & Hfs & _).
      rewrite Hfc, Hfa, Hfs. cbn. auto.
  - intros H. injection H as <-.
    destruct (slider_handle_frame s Slider.Loop.Tick) as (Hfc & Hfa & Hfs & _).
    rewrite Hfc, Hfa, Hfs. auto.
Qed.

Lemma slider_act_closing
    (s s' : Slider.t) (pc pc' : Slider.close_pc) (a : Slider.action) :
  Slider.act (s, pc) a = Some (s', pc') ->
  slider_closing s pc -> slider_closing s' pc'.
Proof.
  unfold slider_closing. intros Hact Hinv.
  destruct a as [c| | | |v|v]; cbn in Hact.
  - destruct (Slider.iterate s c) as [s1|] eqn:Hit; [|discriminate].
    cbn in Hact. injection Hact as <- <-.
    destruct (slider_iterate_flags s s1 c Hit) as (Ha & Hs & Hrun).
    rewrite Ha, Hs. intuition congruence.
  - unfold Slider.executor_arrives in Hact.
    destruct (Slider.exec s); cbn in Hact; try discriminate.
    injection Hact as <- <-. exact Hinv.
  - unfold Slider.executor_leaves in Hact.
    destruct (Slider.exec s); cbn in Hact; try discriminate.
    destruct (Slider.closed s) eqn:Hcl; cbn in Hact; [|discriminate].
    injection Hact as <- <-. cbn. rewrite ?Hcl. exact Hinv.
  - destruct pc; cbn in Hact; try discriminate.
    + destruct (Slider.closed s) eqn:Hc.
      * injection Hact as <- <-. intuition congruence.
      * unfold Chan.close in Hact.
        destruct (Chan.closed (Slider.activeValue s)) eqn:Hq; injection Hact as <- <-;
          cbn; rewrite ?Hc, ?Hq; intuition congruence.
    + unfold Chan.close in Hact.
      destruct (Chan.closed (Slider.selectedValue s)) eqn:Hq; injection Hact as <- <-;
        cbn; rewrite ?Hq; intuition congruence.
    + destruct (Slider.closed s) eqn:Hc; [|discriminate]. injection Hact as <- <-.
      intuition congruence.
  - unfold Slider.Changed, Chan.send in Hact.
    destruct (Chan.closed (Slider.selectedValue s)) eqn:Hq; [discriminate|].
    destruct (length (Chan.buf (Slider.selectedValue s)) <? Chan.cap (Slider.selectedValue s))%nat;
      [|discriminate].
    injection Hact as <- <-. cbn. intuition congruence.
  - unfold Slider.SetVolume, Chan.send in Hact.
    destruct (Chan.closed (Slider.activeValue s)) eqn:Hq; [discriminate|].
    destruct (length (Chan.buf (Slider.activeValue s)) <? Chan.cap (Slider.activeValue s))%nat;
      [|discriminate].
    injection Hact as <- <-. cbn. intuition congruence.
Qed.

Lemma slider_run_closing (acts : list Slider.action) :
  forall (s s' : Slider.t) (pc pc' : Slider.close_pc),
    Slider.run (s, pc) acts = Some (s', pc') ->
    slider_closing s pc -> slider_closing s' pc'.
Proof.
  induction acts as [|a acts IH]; intros s s' pc pc' Hrun Hinv.
  - cbn in Hrun. injection Hrun as <- <-. exact Hinv.
  - cbn [Slider.run] in Hrun.
    destruct (Slider.act (s, pc) a) as [[s1 pc1]|] eqn:Hact; [|discriminate].
    exact (IH _ _ _ _ Hrun (slider_act_closing _ _ _ _ _ Hact Hinv)).
Qed.

(** X15: a slider must not be used after [Close].  When [Close] was called
  on a running slider with both queues open and has returned, under every
  schedule, both queues are closed and every later call of [Changed] or
  [SetVolume] panics. *)
Theorem slider_use_after_close_panics :
  forall (s s1 : Slider.t) (acts : list Slider.action) (value : Z),
    Slider.closed s = false ->
    Chan.closed (Slider.activeValue s) = false ->
    Chan.closed (Slider.selectedValue s) = false ->
    Slider.run (s, Slider.AtSelect) acts = Some (s1, Slider.Returned) ->
    Slider.Changed s1 value = Panics /\ Slider.SetVolume s1 value = Panics.
Proof.
  intros s s1 acts value Hc Hoa Hos Hrun.
  assert (Hinv : slider_closing s Slider.AtSelect) by (right; right; auto).
  destruct (slider_run_closing acts _ _ _ _ Hrun Hinv) as [[Ha Hs]|[[Hp _]|[Hp _]]];
    try discriminate.
  unfold Slider.Changed, Slider.SetVolume, Chan.send. now rewrite Ha, Hs.
Qed.

Lemma slider_use_after_close_panics_witness :
  let s1 :=
    Slider.mk VolumeSlider.translate
      (Chan.mk [] 1000 true) (Chan.mk [-30] 1000 true) true
      (Slider.Loop.mk 0 (-30) true) Slider.ExecBusy [-30] in
  Slider.Changed s1 100 = Panics /\ Slider.SetVolume s1 (-20) = Panics.
Proof.
  intros s1. split.
  - apply (slider_use_after_close_panics (slider_with_backlog 2) s1
             [Slider.DoExecutorArrives; Slider.DoClose;
              Slider.DoIterate Slider.CaseSelected; Slider.DoClose;
              Slider.DoIterate Slider.CaseTick;
              Slider.DoIterate Slider.CaseActive; Slider.DoClose] 100); reflexivity.
  - apply (slider_use_after_close_panics (slider_with_backlog 2) s1
             [Slider.DoExecutorArrives; Slider.DoClose;
              Slider.DoIterate Slider.CaseSelected; Slider.DoClose;
              Slider.DoIterate Slider.CaseTick;
              Slider.DoIterate Slider.CaseActive; Slider.DoClose] (-20)); reflexivity.
Defined.

(** X14: [Close] of a slider may leave queued targets unhandled.  With no
  active value queued, the deciding goroutine can take the closed queue of
  active values first and return at once: [Close] returns with the targets
  still in their queue, no call of [set] made for them, and no iteration
  left to handle them. *)
Theorem slider_close_may_drop_queued_targets :
  forall s : Slider.t,
    Slider.closed s = false ->
    Chan.closed (Slider.activeValue s) = false ->
    Chan.closed (Slider.selectedValue s) = false ->
    Chan.buf (Slider.activeValue s) = [] ->
    exists s',
      Slider.run (s, Slider.AtSelect)
        [Slider.DoClose; Slider.DoClose; Slider.DoIterate Slider.CaseActive; Slider.DoClose]
        = Some (s', Slider.Returned) /\
      Chan.buf (Slider.selectedValue s') = Chan.buf (Slider.selectedValue s) /\
      Slider.loop s' = Slider.loop s /\
      Slider.calls s' = Slider.calls s /\
      (forall c, Slider.iterate s' c = None).
Proof.
  intros s Hc Hoa Hos Hempty. eexists. split.
  - cbn [Slider.run Slider.act Slider.Close]. unfold Chan.close at 1.
    rewrite Hc, Hoa.
    cbn [Slider.run Slider.act Slider.Close Slider.selectedValue Slider.with_activeValue].
    unfold Chan.close at 1. rewrite Hos.
    cbn [Slider.run Slider.act]. unfold Slider.iterate, Chan.recv.
    cbn [Slider.closed Slider.with_selectedValue Slider.with_activeValue
           Slider.activeValue Chan.buf Chan.closed].
    rewrite Hc, Hempty. cbn. reflexivity.
  - cbn. repeat split.
Qed.

Lemma slider_close_may_drop_queued_targets_witness :
  exists s',
    Slider.run (slider_with_backlog 2, Slider.AtSelect)
      [Slider.DoClose; Slider.DoClose; Slider.DoIterate Slider.CaseActive; Slider.DoClose]
      = Some (s', Slider.Returned) /\
    Chan.buf (Slider.selectedValue s') = [-30; -30] /\
    Slider.calls s' = [].
Proof.
  destruct (slider_close_may_drop_queued_targets (slider_with_backlog 2)
              eq_refl eq_refl eq_refl eq_refl) as (s' & Hrun & Hbuf & _ & Hcalls & _).
  exists s'. split; [exact Hrun|]. split; [exact Hbuf | exact Hcalls].
Defined.

(** ** The slider: from the queue to the loop *)

Lemma happen_with_selectedValue (s : Slider.t) (ch : Chan.t) (h : Slider.happening) :
  Slider.happen (Slider.with_selectedValue s ch) h
    = Slider.with_selectedValue (Slider.happen s h) ch.
Proof.
  destruct h as [e|]; cbn [Slider.happen].
  - unfold Slider.handle. cbn [Slider.exec Slider.loop Slider.with_selectedValue].
    destruct (Slider.Loop.step _ _ _) as [l [v|]]; reflexivity.
  - unfold Slider.executor_arrives. cbn [Slider.exec Slider.with_selectedValue].
    destruct (Slider.exec s); reflexivity.
Qed.

Lemma after_with_selectedValue (hs : list Slider.happening) :
  forall (s : Slider.t) (ch : Chan.t),
    Slider.after (Slider.with_selectedValue s ch) hs
      = Slider.with_selectedValue (Slider.after s hs) ch.
Proof.
  induction hs as [|h hs IH]; intros s ch; [reflexivity|].
  change (Slider.after ?x (h :: hs)) with (Slider.after (Slider.happen x h) hs).
  now rewrite happen_with_selectedValue, IH.
Qed.

(** Calls of [Changed] that find room put the translated values at the end
  of the queue. *)
Lemma slider_changed_all (pc : Slider.close_pc) (vs : list Z) :
  forall s : Slider.t,
    Chan.closed (Slider.selectedValue s) = false ->
    (length (Chan.buf (Slider.selectedValue s)) + length vs
     <= Chan.cap (Slider.selectedValue s))%nat ->
    Slider.run (s, pc) (map Slider.DoChanged vs)
      = Some (Slider.with_selectedValue s
                (Chan.mk (Chan.buf (Slider.selectedValue s) ++ map (Slider.translate s) vs)
                   (Chan.cap (Slider.selectedValue s)) false), pc).
Proof.
  induction vs as [|v vs IH]; intros s Hopen Hroom.
  - cbn. rewrite app_nil_r. destruct s as [t a [b c cl] x l e cs]. cbn in *. now subst cl.
  - cbn [map Slider.run Slider.act]. unfold Slider.Changed, Chan.send.
    rewrite Hopen. cbn [length] in Hroom.
    assert (Hlt : (length (Chan.buf (Slider.selectedValue s))
                   <? Chan.cap (Slider.selectedValue s))%nat = true)
      by (apply Nat.ltb_lt; lia).
    rewrite Hlt, IH.
    + cbn. now rewrite <- app_assoc.
    + reflexivity.
    + cbn. rewrite length_app. cbn. lia.
Qed.

(** The deciding goroutine takes the queued targets in order. *)
Lemma slider_takes_targets (pc : Slider.close_pc) (vs : list Z) :
  forall s : Slider.t,
    Slider.closed s = false ->
    Chan.buf (Slider.selectedValue s) = vs ->
    Slider.run (s, pc) (repeat (Slider.DoIterate Slider.CaseSelected) (length vs))
      = Some (Slider.with_selectedValue
                (Slider.after s (map (fun v => Slider.Handled (Slider.Loop.Selected v)) vs))
                (Chan.mk [] (Chan.cap (Slider.selectedValue s))
                   (Chan.closed (Slider.selectedValue s))), pc).
Proof.
  induction vs as [|v vs IH]; intros s Hc Hbuf.
  - cbn. destruct s as [t a [b c cl] x l e cs]. cbn in *. now subst.
  - cbn [length repeat Slider.run Slider.act]. unfold Slider.iterate, Chan.recv.
    rewrite Hc, Hbuf. cbn [option_map].
    set (ch := Chan.mk vs (Chan.cap (Slider.selectedValue s))
                 (Chan.closed (Slider.selectedValue s))).
    destruct (slider_handle_frame (Slider.with_selectedValue s ch) (Slider.Loop.Selected v))
      as (Hfc & _ & Hfs & _).
    rewrite IH; [|rewrite Hfc; exact Hc|rewrite Hfs; reflexivity].
    rewrite Hfs. cbn [map].
    change (Slider.handle (Slider.with_selectedValue s ch) (Slider.Loop.Selected v))
      with (Slider.happen (Slider.with_selectedValue s ch)
              (Slider.Handled (Slider.Loop.Selected v))).
    rewrite happen_with_selectedValue, after_with_selectedValue.
    reflexivity.
Qed.

Lemma targets_of_selected (vs : list Z) :
  targets (map (fun v => Slider.Handled (Slider.Loop.Selected v)) vs) = vs.
Proof. induction vs as [|v vs IH]; [reflexivity|]. cbn. now rewrite <- IH at 2. Qed.

Lemma last_map (f : Z -> Z) (vs : list Z) (d : Z) :
  vs <> [] -> last (map f vs) d = f (last vs 0).
Proof.
  intros Hne. destruct vs as [|v vs]; [contradiction|]. clear Hne.
  revert v d. induction vs as [|x vs IH]; intros v d; [reflexivity|].
  change (map f (v :: x :: vs)) with (f v :: map f (x :: vs)).
  rewrite (last_cons (f v)), (last_cons v), IH. f_equal. now rewrite !last_cons.
Qed.

(** X18: queued targets are handled in the order of their submission, so the
  last one wins.  On a running slider with an empty, open queue of targets,
  any number of values up to the capacity of the queue are accepted by
  [Changed], and once the deciding goroutine has taken them the queue is
  empty again and the selected value is the translation of the last value
  submitted; the active value is untouched. *)
Theorem last_submitted_target_is_selected :
  forall (s : Slider.t) (pc : Slider.close_pc) (vs : list Z),
    Slider.closed s = false ->
    Chan.closed (Slider.selectedValue s) = false ->
    Chan.buf (Slider.selectedValue s) = [] ->
    vs <> [] ->
    (length vs <= Chan.cap (Slider.selectedValue s))%nat ->
    exists s',
      Slider.run (s, pc)
        (map Slider.DoChanged vs
           ++ repeat (Slider.DoIterate Slider.CaseSelected) (length vs))
        = Some (s', pc) /\
      Chan.buf (Slider.selectedValue s') = [] /\
      Slider.Loop.selectedValue (Slider.loop s') = Slider.translate s (last vs 0) /\
      Slider.Loop.activeValue (Slider.loop s') = Slider.Loop.activeValue (Slider.loop s).
Proof.
  intros s pc vs Hc Hopen Hempty Hne Hroom.
  set (q := Chan.mk (map (Slider.translate s) vs) (Chan.cap (Slider.selectedValue s)) false).
  assert (Hsend : Slider.run (s, pc) (map Slider.DoChanged vs)
                  = Some (Slider.with_selectedValue s q, pc)).
  { rewrite slider_changed_all; [now rewrite Hempty|assumption|rewrite Hempty; cbn; lia]. }
  assert (Htake := slider_takes_targets pc (map (Slider.translate s) vs)
                     (Slider.with_selectedValue s q) Hc eq_refl).
  rewrite length_map in Htake.
  eexists. split; [rewrite slider_run_app, Hsend; exact Htake|].
  rewrite after_with_selectedValue.
  cbn [Slider.selectedValue Slider.loop Slider.with_selectedValue Chan.buf].
  assert (Hw : forallb in_window
                 (map (fun v => Slider.Handled (Slider.Loop.Selected v))
                    (map (Slider.translate s) vs)) = true).
  { apply forallb_forall. intros h Hin. apply in_map_iff in Hin as (v & <- & _). reflexivity. }
  destruct (window_calls _ s Hw) as (Ha & Hs & _).
  rewrite targets_of_selected in Hs.
  split; [reflexivity|]. split; [|exact Ha].
  rewrite Hs. apply last_map. exact Hne.
Qed.

Lemma last_submitted_target_is_selected_witness :
  exists s',
    Slider.run (slider_with_backlog 0, Slider.AtSelect)
      (map Slider.DoChanged [127; 0; 64]
         ++ repeat (Slider.DoIterate Slider.CaseSelected) 3)
      = Some (s', Slider.AtSelect) /\
    Slider.Loop.selectedValue (Slider.loop s') = VolumeSlider.translate 64.
Proof.
  destruct (last_submitted_target_is_selected (slider_with_backlog 0) Slider.AtSelect
              [127; 0; 64] eq_refl eq_refl eq_refl ltac:(discriminate))
    as (s' & Hrun & _ & Hsel & _).
  - cbn. lia.
  - exists s'. split; [exact Hrun | exact Hsel].
Defined.

(** ** The volume slider: resolution *)

(** X16: the volume slider reaches every whole dB from -60 to 0: each such
  value is the translation of some MIDI value 0..127, and one MIDI step
  raises the translated value by at most 1 dB. *)
Theorem volume_translation_reaches_every_dB :
  (forall d, -60 <= d <= 0 ->
     exists v, 0 <= v <= 127 /\ VolumeSlider.translate v = d) /\
  (forall v, 0 <= v -> v < 127 ->
     VolumeSlider.translate (v + 1) - VolumeSlider.translate v <= 1).
Proof.
  split.
  - intros d Hd. exists ((127 * (d + 60) + 59) / 60).
    assert (Hdm := Z.div_mod (127 * (d + 60) + 59) 60 ltac:(lia)).
    assert (Hmb := Z.mod_pos_bound (127 * (d + 60) + 59) 60 ltac:(lia)).
    set (v := (127 * (d + 60) + 59) / 60) in *.
    assert (Hv : 0 <= v <= 127) by lia.
    split; [exact Hv|]. rewrite translate_closed_form by exact Hv.
    assert (60 * v / 127 = d + 60); [|lia].
    symmetry. apply Z.div_unique with (r := 60 * v - 127 * (d + 60)); lia.
  - intros v Hlo Hhi. rewrite !translate_closed_form by lia.
    assert (Hdm := Z.div_mod (60 * v) 127 ltac:(lia)).
    assert (Hmb := Z.mod_pos_bound (60 * v) 127 ltac:(lia)).
    assert (Hdm' := Z.div_mod (60 * (v + 1)) 127 ltac:(lia)).
    assert (Hmb' := Z.mod_pos_bound (60 * (v + 1)) 127 ltac:(lia)).
    lia.
Qed.

Lemma volume_translation_reaches_every_dB_witness :
  (exists v, 0 <= v <= 127 /\ VolumeSlider.translate v = -17) /\
  VolumeSlider.translate (63 + 1) - VolumeSlider.translate 63 <= 1.
Proof.
  split.
  - apply (proj1 volume_translation_reaches_every_dB (-17)). lia.
  - apply (proj2 volume_translation_reaches_every_dB 63); lia.
Defined.

(** ** The executor of the slider *)

Lemma slider_handle_exec (s : Slider.t) (e : Slider.Loop.event) :
  Slider.exec (Slider.handle s e) = Slider.ExecBusy \/
  Slider.exec (Slider.handle s e) = Slider.exec s.
Proof.
  unfold Slider.handle. destruct (Slider.Loop.step _ _ _) as [l [v|]]; cbn; auto.
Qed.

Lemma slider_act_executor
    (s s' : Slider.t) (pc pc' : Slider.close_pc) (a : Slider.action) :
  Slider.act (s, pc) a = Some (s', pc') ->
  (Slider.exec s = Slider.ExecReturned -> Slider.closed s = true) ->
  Slider.exec s' = Slider.ExecReturned -> Slider.closed s' = true.
Proof.
  intros Hact Hinv Hret. destruct a as [c| | | |v|v]; cbn in Hact.
  - unfold Slider.iterate in Hact. destruct (Slider.closed s) eqn:Hc; [discriminate|].
    assert (Hh : forall s0 e, Slider.exec s0 = Slider.exec s ->
                   Slider.exec (Slider.handle s0 e) = Slider.ExecReturned -> False).
    { intros s0 e Hx H. destruct (slider_handle_exec s0 e) as [Hb|Hb]; rewrite Hb in H;
        [discriminate|]. rewrite Hx in H. apply Hinv in H. discriminate. }
    destruct c.
    + unfold Chan.recv in Hact. destruct (Chan.buf (Slider.activeValue s)).
      * destruct (Chan.closed (Slider.activeValue s)); [|discriminate].
        injection Hact as <- <-. reflexivity.
      * injection Hact as <- <-. exfalso. eapply Hh; [|exact Hret]. reflexivity.
    + unfold Chan.recv in Hact. destruct (Chan.buf (Slider.selectedValue s)).
      * destruct (Chan.closed (Slider.selectedValue s)); [|discriminate].
        injection Hact as <- <-. reflexivity.
      * injection Hact as <- <-. exfalso. eapply Hh; [|exact Hret]. reflexivity.
    + injection Hact as <- <-. exfalso. eapply Hh; [|exact Hret]. reflexivity.
  - unfold Slider.executor_arrives in Hact.
    destruct (Slider.exec s); cbn in Hact; try discriminate.
    injection Hact as <- <-. discriminate.
  - unfold Slider.executor_leaves in Hact.
    destruct (Slider.exec s); cbn in Hact; try discriminate.
    destruct (Slider.closed s) eqn:Hc; cbn in Hact; [|discriminate].
    injection Hact as <- <-. exact Hc.
  - destruct pc; cbn in Hact; try discriminate.
    + destruct (Slider.closed s) eqn:Hc.
      * injection Hact as <- <-. exact Hc.
      * destruct (Chan.close (Slider.activeValue s)); injection Hact as <- <-;
          cbn in Hret; apply Hinv in Hret; cbn; congruence.
    + destruct (Chan.close (Slider.selectedValue s)); injection Hact as <- <-;
        cbn in Hret; apply Hinv in Hret; cbn; congruence.
    + destruct (Slider.closed s) eqn:Hc; [|discriminate]. injection Hact as <- <-. exact Hc.
  - unfold Slider.Changed in Hact.
    destruct (Chan.send (Slider.selectedValue s) (Slider.translate s v)); try discriminate.
    injection Hact as <- <-. cbn in *. auto.
  - unfold Slider.SetVolume in Hact.
    destruct (Chan.send (Slider.activeValue s) v); try discriminate.
    injection Hact as <- <-. cbn in *. auto.
Qed.

(** X19: the goroutine that calls [set] stops only after the deciding
  goroutine, and it does stop.  Under every schedule, from a state in which
  it is running, the executor has returned only if [closed] is closed; and
  once [closed] is closed a running executor can come back to its [select]
  and return, making no further call of [set]. *)
Theorem executor_stops_after_the_loop_only :
  (forall (acts : list Slider.action) (s s' : Slider.t) (pc pc' : Slider.close_pc),
     Slider.run (s, pc) acts = Some (s', pc') ->
     Slider.exec s <> Slider.ExecReturned ->
     Slider.exec s' = Slider.ExecReturned ->
     Slider.closed s' = true) /\
  (forall (s : Slider.t) (pc : Slider.close_pc),
     Slider.closed s = true ->
     Slider.exec s <> Slider.ExecReturned ->
     exists acts s',
       Slider.run (s, pc) acts = Some (s', pc) /\
       Slider.exec s' = Slider.ExecReturned /\
       Slider.calls s' = Slider.calls s).
Proof.
  split.
  - intros acts s s' pc pc' Hrun Hx.
    assert (Hinv : Slider.exec s = Slider.ExecReturned -> Slider.closed s = true)
      by (intros H; contradiction).
    clear Hx. revert s pc Hrun Hinv.
    induction acts as [|a acts IH]; intros s pc Hrun Hinv Hret.
    + cbn in Hrun. injection Hrun as <- <-. auto.
    + cbn [Slider.run] in Hrun.
      destruct (Slider.act (s, pc) a) as [[s1 pc1]|] eqn:Hact; [|discriminate].
      apply (IH s1 pc1 Hrun); [|exact Hret].
      exact (slider_act_executor _ _ _ _ _ Hact Hinv).
  - intros s pc Hc Hx. destruct (Slider.exec s) eqn:He; [| |contradiction].
    + exists [Slider.DoExecutorLeaves], (Slider.with_exec s Slider.ExecReturned).
      cbn. unfold Slider.executor_leaves. rewrite He, Hc. cbn. auto.
    + exists [Slider.DoExecutorArrives; Slider.DoExecutorLeaves],
        (Slider.with_exec (Slider.with_exec s Slider.ExecWaiting) Slider.ExecReturned).
      cbn. unfold Slider.executor_arrives. rewrite He. cbn.
      unfold Slider.executor_leaves. cbn. rewrite Hc. cbn. auto.
Qed.

Lemma executor_stops_after_the_loop_only_witness :
  let s1 :=
    Slider.mk VolumeSlider.translate
      (Chan.mk [] 1000 true) (Chan.mk [-30] 1000 true) true
      (Slider.Loop.mk 0 (-30) true) Slider.ExecBusy [-30] in
  exists acts s',
    Slider.run (s1, Slider.Returned) acts = Some (s', Slider.Returned) /\
    Slider.exec s' = Slider.ExecReturned /\
    Slider.calls s' = [-30].
Proof.
  intros s1.
  exact (proj2 executor_stops_after_the_loop_only s1 Slider.Returned eq_refl
           ltac:(discriminate)).
Defined.

(** ** From the constructors to the first command *)

(** X20: a new wheel, end to end.  On a wheel made by [NewVFOWheel], a
  matching feedback [f <> 0] and a turn [n <> 0] (below 2^50 in size), once
  the goroutine has taken both, make the next tick send exactly one command:
  [SetVFOFrequency] on the wheel's own transceiver and VFO with [f] plus
  [n * 1.8], fraction cut off; a failing call adds only a log line. *)
Theorem new_wheel_first_dispatch {V : VFOType} :
  forall (key : MidiKey) (trx : Z) (vfo : VFO) (pc : VFOWheel.close_pc)
         (f n : Z) (err : bool),
    f <> 0 -> n <> 0 -> Z.abs n < 2 ^ 50 ->
    exists w',
      VFOWheel.run (VFOWheel.NewVFOWheel key trx vfo, pc)
        [VFOWheel.DoSetVFOFrequency trx vfo f; VFOWheel.DoTurned n;
         VFOWheel.DoIterate VFOWheel.CaseFrequency;
         VFOWheel.DoIterate VFOWheel.CaseTurns;
         VFOWheel.DoIterate (VFOWheel.CaseTick err)]
        = Some (w', pc) /\
      VFOWheel.trace w'
        = Loop.CallSetVFOFrequency trx vfo (GoInt.add f (Z.quot (9 * n) 5))
            :: (if err then [Loop.LogPrintf] else []) /\
      VFOWheel.loop w' = Loop.mk 0 (0 <? f) (GoInt.add f (Z.quot (9 * n) 5)).
Proof.
  intros key trx vfo pc f n err Hf Hn Hsmall.
  assert (Hadd : GoInt.add 0 n = n).
  { apply add_in_range. unfold GoInt.in_range, GoInt.min_int, GoInt.max_int.
    assert (2 ^ 50 < 2 ^ 63) by (apply Z.pow_lt_mono_r; lia). lia. }
  eexists. split.
  - unfold VFOWheel.NewVFOWheel.
    cbn [VFOWheel.run VFOWheel.act]. unfold VFOWheel.SetVFOFrequency.
    cbn [VFOWheel.trx VFOWheel.vfo VFOWheel.frequency].
    rewrite Z.eqb_refl, (proj2 (VFO_eqb_eq _ _) eq_refl). cbn [negb orb].
    cbn -[Loop.scaled GoInt.add Z.eqb Z.ltb].
    rewrite Hadd. reflexivity.
  - unfold VFOWheel.deliver, Loop.step.
    cbn [VFOWheel.trx VFOWheel.vfo VFOWheel.loop VFOWheel.trace
           Loop.accumulatedTurns Loop.turning Loop.frequency].
    destruct (Z.eqb_spec n 0) as [|_]; [contradiction|].
    destruct (Z.eqb_spec f 0) as [|_]; [contradiction|].
    cbn [negb andb VFOWheel.trace VFOWheel.loop app].
    rewrite scaled_quot by assumption. split; reflexivity.
Qed.

Lemma new_wheel_first_dispatch_witness :
  exists w',
    VFOWheel.run (VFOWheel.NewVFOWheel (V := int_VFO) (Build_MidiKey x00 x01) 0 1,
                  VFOWheel.AtSelect)
      [VFOWheel.DoSetVFOFrequency 0 1 14250000; VFOWheel.DoTurned (-3);
       VFOWheel.DoIterate VFOWheel.CaseFrequency;
       VFOWheel.DoIterate VFOWheel.CaseTurns;
       VFOWheel.DoIterate (VFOWheel.CaseTick false)]
      = Some (w', VFOWheel.AtSelect) /\
    VFOWheel.trace w' = [Loop.CallSetVFOFrequency 0 1 14249995].
Proof.
  destruct (new_wheel_first_dispatch (V := int_VFO) (Build_MidiKey x00 x01) 0 1
              VFOWheel.AtSelect 14250000 (-3) false
              ltac:(discriminate) ltac:(discriminate) eq_refl)
    as (w' & Hrun & Htrace & _).
  exists w'. split; [exact Hrun | exact Htrace].
Defined.

(** X21: a new volume slider, end to end.  On a slider made by
  [NewVolumeSlider], with the executor at its [select], a MIDI value below
  127 passed to [Changed] and taken by the deciding goroutine makes exactly
  one call of [set], with the translated value, which lies between -60 and
  -1 dB; the top value 127 translates to 0 dB, which equals the initial
  active value, and makes no call. *)
Theorem new_volume_slider_first_command :
  forall (pc : Slider.close_pc) (v : Z),
    0 <= v <= 127 ->
    exists s',
      Slider.run (VolumeSlider.NewVolumeSlider, pc)
        [Slider.DoExecutorArrives; Slider.DoChanged v;
         Slider.DoIterate Slider.CaseSelected]
        = Some (s', pc) /\
      Slider.Loop.selectedValue (Slider.loop s') = VolumeSlider.translate v /\
      (v < 127 ->
       Slider.calls s' = [VolumeSlider.translate v] /\
       -60 <= VolumeSlider.translate v <= -1) /\
      (v = 127 -> Slider.calls s' = []).
Proof.
  intros pc v Hv.
  assert (Ht := translate_closed_form v Hv).
  assert (Hdm := Z.div_mod (60 * v) 127 ltac:(lia)).
  assert (Hmb := Z.mod_pos_bound (60 * v) 127 ltac:(lia)).
  unfold VolumeSlider.NewVolumeSlider, Slider.NewSlider.
  cbn -[VolumeSlider.translate Z.eqb].
  unfold Slider.handle, Slider.Loop.step, Slider.Loop.try_send.
  cbn -[VolumeSlider.translate Z.eqb].
  destruct (Z.eqb_spec 0 (VolumeSlider.translate v)) as [Hz|Hnz];
    cbn -[VolumeSlider.translate Z.eqb]; eexists; (split; [reflexivity|]);
    cbn -[VolumeSlider.translate Z.eqb].
  - split; [reflexivity|]. split; [intros Hlt; lia | reflexivity].
  - split; [reflexivity|]. split; [intros Hlt; split; [reflexivity|lia] | intros ->].
    exfalso. apply Hnz. reflexivity.
Qed.

Lemma new_volume_slider_first_command_witness :
  exists s',
    Slider.run (VolumeSlider.NewVolumeSlider, Slider.AtSelect)
      [Slider.DoExecutorArrives; Slider.DoChanged 64;
       Slider.DoIterate Slider.CaseSelected]
      = Some (s', Slider.AtSelect) /\
    Slider.calls s' = [VolumeSlider.translate 64].
Proof.
  destruct (new_volume_slider_first_command Slider.AtSelect 64 ltac:(lia))
    as (s' & Hrun & _ & Hcalls & _).
  exists s'. split; [exact Hrun | exact (proj1 (Hcalls ltac:(lia)))].
Defined.
